(** * Tigo TAP to MQTT bridge: the receive pipeline of [tigo-mqtt-bridge.py]

    A shallow embedding of the frame decoder ([FrameReceiver]), of the
    receive-response walk and the power-report decoder ([MQTTBridgeSink])
    and of the deduplication gate ([MQTTBridge.publish_power_report]),
    followed by the properties established about them.

    Conventions.
    - Python [bytes]/[bytearray] values are [list byte]; [b2z] reads a byte
      as the integer Python sees when indexing.
    - Python [int] is [Z] (offsets and lengths, never negative, are [nat]).
    - Python [float] is the primitive binary64 [float].
    - [time.time()] is an explicit argument [current_time].
    - The calls [sink.frame(...)] and [mqtt_client.publish(...)] append to an
      output list. *)

From Stdlib Require Import ZArith List Bool Lia Floats Ascii.
From Stdlib.Strings Require Import Byte.
From stdpp Require Import gmap.
From Equations Require Import Equations.
Import ListNotations.

Set Warnings "-inexact-float".
Open Scope Z_scope.

(** ** Bytes *)

Definition b2z (b : byte) : Z := Z.of_N (Byte.to_N b).
Arguments b2z : simpl never.

(** [data[i]] read as an integer, for [i] inside [data]. *)
Definition byte_at (data : list byte) (i : nat) : Z := b2z (nth i data x00).

(** [bytes([z])] for [0 <= z < 256]. *)
Definition z2b (z : Z) : byte :=
  match Byte.of_N (Z.to_N z) with
  | Some b => b
  | None => x00
  end.

(** A 16-bit unsigned value. *)
Definition u16 (z : Z) : Prop := 0 <= z < 65536.

(** [l[lo:hi]] for [0 <= lo]. *)
Definition slice {A} (lo hi : nat) (l : list A) : list A :=
  take (hi - lo) (drop lo l).

(** [int.from_bytes(bs, byteorder='little')] *)
Definition from_bytes_little (bs : list byte) : Z :=
  fold_right (fun b acc => b2z b + 256 * acc) 0 bs.

(** [int.from_bytes(bs, byteorder='big')] *)
Definition from_bytes_big (bs : list byte) : Z :=
  fold_left (fun acc b => 256 * acc + b2z b) bs 0.

(** [bs1 == bs2] on byte strings. *)
Fixpoint bytes_eqb (l1 l2 : list byte) : bool :=
  match l1, l2 with
  | [], [] => true
  | a :: l1', b :: l2' => Byte.eqb a b && bytes_eqb l1' l2'
  | _, _ => false
  end.

(** ** FrameReceiver: checksum *)

Module CRC.

(** One pass of the inner [for _ in range(8)] loop. *)
Definition crc_bit (crc : Z) : Z :=
  if Z.land crc 0x0001 =? 0
  then Z.shiftr crc 1
  else Z.lxor (Z.shiftr crc 1) 0x8408.

(** One pass of the outer [for byte in data] loop. *)
Definition crc_byte (crc : Z) (b : byte) : Z :=
  Nat.iter 8 crc_bit (Z.lxor crc (b2z b)).

Definition calculate_crc (data : list byte) : Z :=
  fold_left crc_byte data 0x8408.

Definition verify_checksum (data checksum : list byte) : bool :=
  let calculated := calculate_crc data in
  let expected := from_bytes_little checksum in
  calculated =? expected.

(** The stored form of a checksum: [crc.to_bytes(2, byteorder='little')].
    The program only reads checksums; this is the encoding its
    [verify_checksum] expects from the sender. *)
Definition crc_le (data : list byte) : list byte :=
  let crc := calculate_crc data in
  [z2b (Z.land crc 0xFF); z2b (Z.shiftr crc 8)].

(** The algorithm in the words of the protocol description: a 16-bit
    register, each byte XORed into its low byte, then eight times a shift
    right by one with 0x8408 XORed in when the bit shifted out was 1. *)
Definition xor_into_low_byte (reg : Z) (b : byte) : Z :=
  256 * (reg / 256) + Z.lxor (reg mod 256) (b2z b).

Definition shift_out (reg : Z) : Z :=
  let out := reg mod 2 in
  let reg' := reg / 2 in
  if out =? 1 then Z.lxor reg' 0x8408 else reg'.

Definition crc_described (data : list byte) : Z :=
  fold_left (fun reg b => Nat.iter 8 shift_out (xor_into_low_byte reg b))
            data 0x8408.

End CRC.

(** ** Frame *)

Record Frame := mkFrame {
  frame_data : list byte;
  address : Z;
  is_from_gateway : bool;
  gateway_id : Z;
  type : option (list byte);
  payload : option (list byte);
  checksum : option (list byte)
}.

(** [Frame.__init__(data)]. [data[4:-2]] and [data[-2:]] are taken where
    the guards make the negative indices land inside [data]. *)
Definition Frame_init (data : list byte) : Frame :=
  let address := from_bytes_big (slice 0 2 data) in
  {| frame_data := data;
     address := address;
     is_from_gateway := negb (Z.land address 0x8000 =? 0);
     gateway_id := Z.land address 0x7FFF;
     type := if (4 <=? length data)%nat then Some (slice 2 4 data) else None;
     payload := if (6 <=? length data)%nat
                then Some (slice 4 (length data - 2) data) else None;
     checksum := if (2 <=? length data)%nat
                 then Some (drop (length data - 2) data) else None |}.

(** ** FrameReceiver *)

Module FrameReceiver.

Definition FRAME_START : byte * byte := (x7e, x07).
Definition FRAME_END : byte * byte := (x7e, x08).

(** The escape table, keyed by two-byte sequences. *)
Definition ESCAPE_MAP : list ((byte * byte) * byte) :=
  [ ((x7e, x00), x7e);
    ((x7e, x01), x24);
    ((x7e, x02), x23);
    ((x7e, x03), x25);
    ((x7e, x04), xa4);
    ((x7e, x05), xa3);
    ((x7e, x06), xa5) ].

Definition pair_eqb (p q : byte * byte) : bool :=
  Byte.eqb (fst p) (fst q) && Byte.eqb (snd p) (snd q).

(** [ESCAPE_MAP[seq]] if [seq in ESCAPE_MAP]. *)
Fixpoint escape_lookup (table : list ((byte * byte) * byte)) (seq : byte * byte)
  : option byte :=
  match table with
  | [] => None
  | (k, v) :: table' => if pair_eqb k seq then Some v else escape_lookup table' seq
  end.

(** The [while i < len(data)] loop of [unescape_frame], as a recursion on
    the bytes from position [i] on. *)
Fixpoint unescape_frame (data : list byte) : list byte :=
  match data with
  | [] => []
  | d :: rest =>
      match rest with
      | d1 :: rest' =>
          if Byte.eqb d x7e then
            match escape_lookup ESCAPE_MAP (d, d1) with
            | Some v => v :: unescape_frame rest'
            | None => d :: unescape_frame rest
            end
          else d :: unescape_frame rest
      | [] => [d]
      end
  end.

(** [for i in range(len(buf) - 1): if buf[i:i+2] == marker: return i],
    [None] standing for the index staying at [-1]. *)
Fixpoint find_marker (marker : byte * byte) (buf : list byte) : option nat :=
  match buf with
  | a :: ((b :: _) as tl) =>
      if pair_eqb (a, b) marker then Some 0%nat
      else option_map S (find_marker marker tl)
  | _ => None
  end.

(** The same search over [range(from, len(buf) - 1)]. *)
(** Whether the bytes after a 7E make it the start of an escape
    sequence. *)
Definition starts_escape (rest : list byte) : bool :=
  match rest with
  | b :: _ =>
      match escape_lookup ESCAPE_MAP (x7e, b) with
      | Some _ => true
      | None => false
      end
  | [] => false
  end.

Definition find_marker_from (marker : byte * byte) (from : nat) (buf : list byte)
  : option nat :=
  option_map (fun i => (from + i)%nat) (find_marker marker (drop from buf)).

(** What one extracted region hands to the sink: the body of the
    [if len(unescaped_data) >= 4] block. *)
Definition deliver (unescaped_data : list byte) : list Frame :=
  if (4 <=? length unescaped_data)%nat then
    let frame_body := take (length unescaped_data - 2) unescaped_data in
    let checksum := drop (length unescaped_data - 2) unescaped_data in
    if CRC.verify_checksum frame_body checksum
    then [Frame_init unescaped_data]
    else []
  else [].

(** The [while True] loop of [extend_from_slice]: the frames handed to the
    sink, in order, and the buffer left when the loop returns. *)
Equations? process (buf : list byte) : list Frame * list byte
  by wf (length buf) lt :=
process [] := ([], []);
process (b :: tl) with find_marker FRAME_START (b :: tl) => {
  | None := ([], b :: tl);
  | Some start_idx
      with find_marker_from FRAME_END (start_idx + 2) (b :: tl) => {
      | None := ([], b :: tl);
      | Some end_idx :=
          let frame_data := slice (start_idx + 2) end_idx (b :: tl) in
          let unescaped_data := unescape_frame frame_data in
          let r := process (drop (end_idx + 2) (b :: tl)) in
          (deliver unescaped_data ++ fst r, snd r) } }.
Proof.
  rewrite length_drop. simpl. lia.
Qed.

Record t := mk { buffer : list byte }.

(** [FrameReceiver(sink)] *)
Definition init : t := {| buffer := [] |}.

(** [extend_from_slice(data)]: the new receiver and the frames given to
    [sink.frame] during the call. *)
Definition extend_from_slice (r : t) (data : list byte) : t * list Frame :=
  let res := process (buffer r ++ data) in
  ({| buffer := snd res |}, fst res).

(** Feeding a sequence of chunks, one call per chunk. *)
Fixpoint feed_all (r : t) (chunks : list (list byte)) : t * list Frame :=
  match chunks with
  | [] => (r, [])
  | c :: chunks' =>
      let '(r1, fs1) := extend_from_slice r c in
      let '(r2, fs2) := feed_all r1 chunks' in
      (r2, fs1 ++ fs2)
  end.

End FrameReceiver.

(** ** PowerReport *)

(** [int * float]: the integer is converted to a float first; the raw
    values here are below [2^12], so the conversion is exact. *)
Definition int_to_float (z : Z) : float := PrimFloat.of_uint63 (Uint63.of_Z z).

(** The handler is the only place that builds a [PowerReport]; it always
    passes floats for the five measurements, a node id, and possibly [None]
    for [rssi] and [slot]. *)
Record PowerReport := mkPowerReport {
  node_id : Z;
  voltage_in : float;
  voltage_out : float;
  current : float;
  duty_cycle : float;
  temperature : float;
  rssi : option Z;
  slot : option Z
}.

(** ** MQTTBridge: the deduplication gate *)

Module MQTTBridge.

(** [{'vin': ..., 'current': ..., 'temp': ...}] *)
Record last_values := mkLastValues {
  vin : float;
  cur : float;
  temp : float
}.

(** One call of [mqtt_client.publish]. [pub_address] is the node table
    entry that names the topic, [None] giving the topic
    [unknown-<node id>]; the payload is the report with the gateway id and
    the time stamp. *)
Record publication := mkPublication {
  pub_address : option (list byte);
  pub_report : PowerReport;
  pub_gateway_id : Z;
  pub_timestamp : float
}.

(** The fields of the bridge the receive pipeline reads and writes.
    [mqtt_client] tells whether a client object is present; the key
    [f"{gateway_id}-{node_id.value}"] of [last_reports] is kept as the pair
    it is printed from; [published] collects the calls of
    [mqtt_client.publish]. *)
Record t := mk {
  mqtt_client : bool;
  node_table : gmap Z (list byte);
  last_reports : gmap (Z * Z) (float * option Z * last_values);
  dedup_window : float;
  published : list publication
}.

Definition MAX_BUFFER_SIZE : nat := 1024 * 1024.

Definition option_Z_eqb (a b : option Z) : bool :=
  match a, b with
  | Some x, Some y => x =? y
  | None, None => true
  | _, _ => false
  end.

(** The value of [should_publish] before the state is stored. *)
Definition should_publish (bridge : t) (current_time : float)
    (node_key : Z * Z) (report : PowerReport) : bool :=
  match last_reports bridge !! node_key with
  | Some (last_time, last_slot, last_values) =>
      if ((current_time - last_time <? dedup_window bridge)%float
          && option_Z_eqb (slot report) last_slot)
      then
        if ((abs (voltage_in report - vin last_values) <? 0.2)%float
            && (abs (current report - cur last_values) <? 0.05)%float
            && (abs (temperature report - temp last_values) <? 0.5)%float)
        then false
        else true
      else true
  | None => true
  end.

Definition store (bridge : t) (current_time : float) (node_key : Z * Z)
    (report : PowerReport) : t :=
  {| mqtt_client := mqtt_client bridge;
     node_table := node_table bridge;
     last_reports :=
       <[ node_key := (current_time, slot report,
                       {| vin := voltage_in report;
                          cur := current report;
                          temp := temperature report |}) ]>
         (last_reports bridge);
     dedup_window := dedup_window bridge;
     published := published bridge |}.

Definition publish (bridge : t) (p : publication) : t :=
  {| mqtt_client := mqtt_client bridge;
     node_table := node_table bridge;
     last_reports := last_reports bridge;
     dedup_window := dedup_window bridge;
     published := published bridge ++ [p] |}.

(** The topic address and the payload of the [if should_publish] block. *)
Definition publication_of (bridge : t) (current_time : float)
    (gateway_id node_id : Z) (report : PowerReport) : publication :=
  {| pub_address := node_table bridge !! node_id;
     pub_report := report;
     pub_gateway_id := gateway_id;
     pub_timestamp := current_time |}.

Definition publish_power_report (bridge : t) (current_time : float)
    (gateway_id : Z) (node_id : Z) (report : PowerReport) : t :=
  if negb (mqtt_client bridge) then bridge
  else
    let node_key := (gateway_id, node_id) in
    if (dedup_window bridge <=? 0)%float then bridge
    else
      let should := should_publish bridge current_time node_key report in
      let bridge' := store bridge current_time node_key report in
      if should then
        publish bridge'
          (publication_of bridge current_time gateway_id node_id report)
      else bridge'.

(** What [process_topology_report] may be given as [address]: a [bytes]
    object, a [bytearray], or an object with a [bytes] attribute (a
    [LongAddress]). The three are kept apart because the function tests
    [isinstance(address, bytes)] and [hasattr(address, 'bytes')]. *)
Inductive address_value :=
| AddressBytes (b : list byte)
| AddressByteArray (b : list byte)
| AddressObject (bytes_attribute : list byte).

(** [process_topology_report]: an address that is not [bytes] is replaced
    by its [bytes] attribute when it has one, and otherwise the call warns
    and returns; then [node_table[node_id.value] = address] (and the table
    is written to disk). *)
Definition process_topology_report (bridge : t) (node_id : Z)
    (address : address_value) : t :=
  let write address :=
    {| mqtt_client := mqtt_client bridge;
       node_table := <[ node_id := address ]> (node_table bridge);
       last_reports := last_reports bridge;
       dedup_window := dedup_window bridge;
       published := published bridge |} in
  match address with
  | AddressBytes b => write b
  | AddressObject b => write b
  | AddressByteArray _ => bridge
  end.

End MQTTBridge.

(** ** MQTTBridgeSink *)

Module MQTTBridgeSink.

Definition POWER_REPORT : Z := 0x31.
Definition TOPOLOGY_REPORT : Z := 0x09.
Definition RECEIVE_RESPONSE : list byte := [x01; x49].

(** The body of the [try] block of [_handle_power_report] up to the
    construction of the report; [None] stands for an [IndexError]. *)
Definition power_report_of (node_id : Z) (data : list byte)
  : option PowerReport :=
  d0 ← data !! 0%nat; d1 ← data !! 1%nat; d2 ← data !! 2%nat;
  d3 ← data !! 3%nat; d4 ← data !! 4%nat; d5 ← data !! 5%nat;
  d6 ← data !! 6%nat;
  let vin_raw := Z.lor (Z.shiftl (b2z d0) 4) (Z.shiftr (Z.land (b2z d1) 0xF0) 4) in
  let vin := (int_to_float vin_raw * 0.05)%float in
  let vout_raw := Z.lor (Z.shiftl (Z.land (b2z d1) 0x0F) 8) (b2z d2) in
  let vout := (int_to_float vout_raw * 0.10)%float in
  let duty_cycle := (int_to_float (b2z d3) / 255.0 * 100.0)%float in
  let current_raw := Z.lor (Z.shiftl (b2z d4) 4) (Z.shiftr (Z.land (b2z d5) 0xF0) 4) in
  let current := (int_to_float current_raw * 0.005)%float in
  let temp_raw := Z.lor (Z.shiftl (Z.land (b2z d5) 0x0F) 8) (b2z d6) in
  let temperature := (int_to_float temp_raw * 0.1)%float in
  let slot_counter_value :=
    if (12 <=? length data)%nat
    then Some (from_bytes_big (slice 10 12 data)) else None in
  rssi ← (if (13 <=? length data)%nat
          then d12 ← data !! 12%nat; Some (Some (b2z d12))
          else Some None);
  Some {| node_id := node_id;
          voltage_in := vin;
          voltage_out := vout;
          current := current;
          duty_cycle := duty_cycle;
          temperature := temperature;
          rssi := rssi;
          slot := slot_counter_value |}.

Definition _handle_power_report (bridge : MQTTBridge.t) (current_time : float)
    (node_id : Z) (data : list byte) (gateway_id : Z) : MQTTBridge.t :=
  if (length data <? 12)%nat then bridge
  else
    match power_report_of node_id data with
    | Some report =>
        MQTTBridge.publish_power_report bridge current_time gateway_id node_id report
    | None => bridge
    end.

(** The data of a packet is a slice of the [bytearray] that
    [unescape_frame] builds, so [data[8:16]] is a [bytearray] too. *)
Definition _handle_topology_report (bridge : MQTTBridge.t)
    (node_id : Z) (data : list byte) (gateway_id : Z) : MQTTBridge.t :=
  if (length data <? 16)%nat then bridge
  else
    let long_address := MQTTBridge.AddressByteArray (slice 8 16 data) in
    MQTTBridge.process_topology_report bridge node_id long_address.

(** An embedded packet as the walk hands it to the handlers. *)
Record packet := mkPacket {
  packet_type : Z;
  packet_node_id : Z;
  packet_data : list byte
}.

(** The [try] block at the end of the loop body. *)
Definition dispatch (bridge : MQTTBridge.t) (current_time : float)
    (gateway_id : Z) (p : packet) : MQTTBridge.t :=
  if packet_type p =? POWER_REPORT then
    _handle_power_report bridge current_time (packet_node_id p) (packet_data p) gateway_id
  else if packet_type p =? TOPOLOGY_REPORT then
    _handle_topology_report bridge (packet_node_id p) (packet_data p) gateway_id
  else bridge.

(** How one pass through the body of the [while] loop ends: at the bottom
    of the body with a new offset and a packet to dispatch, at one of the
    two [break]s, or with an [IndexError] from [payload[offset]]. *)
Inductive step_result :=
| Continue (offset : nat) (p : packet)
| Break
| Raise.

Definition walk_step (payload : list byte) (offset : nat) : step_result :=
  match payload !! offset with
  | None => Raise
  | Some packet_type =>
      let offset := (offset + 1)%nat in
      if (length payload <? offset + 2)%nat then Break
      else
        let node_id_value := from_bytes_big (slice offset (offset + 2) payload) in
        let offset := (offset + 2)%nat in
        let offset := (offset + 3)%nat in
        match payload !! offset with
        | None => Raise
        | Some data_length =>
            let data_length := Z.to_nat (b2z data_length) in
            let offset := (offset + 1)%nat in
            if (length payload <? offset + data_length)%nat then Break
            else
              let packet_data := slice offset (offset + data_length) payload in
              let offset := (offset + data_length)%nat in
              Continue offset
                {| packet_type := b2z packet_type;
                   packet_node_id := node_id_value;
                   packet_data := packet_data |}
        end
  end.

Inductive loop_exit := LoopEnd | BreakOut | IndexError.

(** Keeps the equation of a test for the termination argument. *)
Definition inspect {A : Type} (x : A) : {y : A | x = y} := exist _ x eq_refl.

(** What a walk did: the packets handed to the handlers, in order, the
    number of times the loop body was entered, and the way the loop was
    left. *)
Record walk_result := mkWalk {
  packets : list packet;
  iterations : nat;
  exit_kind : loop_exit
}.

(** The [while offset + 6 <= len(payload)] loop. *)
Equations? walk (payload : list byte) (offset : nat) : walk_result
  by wf (length payload - offset)%nat lt :=
walk payload offset with inspect (offset + 6 <=? length payload)%nat => {
  | exist _ false _ := {| packets := []; iterations := 0; exit_kind := LoopEnd |};
  | exist _ true Hguard with inspect (walk_step payload offset) => {
      | exist _ (Continue offset' p) Hstep :=
          let r := walk payload offset' in
          {| packets := p :: packets r;
             iterations := S (iterations r);
             exit_kind := exit_kind r |};
      | exist _ Break _ :=
          {| packets := []; iterations := 1; exit_kind := BreakOut |};
      | exist _ Raise _ :=
          {| packets := []; iterations := 1; exit_kind := IndexError |} } }.
Proof.
  unfold walk_step in Hstep.
  repeat match type of Hstep with
         | match ?x with _ => _ end = _ => destruct x eqn:?; try discriminate
         end.
  injection Hstep as <- _.
  repeat match goal with
         | E : (_ <? _)%nat = false |- _ => apply Nat.ltb_ge in E
         end.
  lia.
Qed.

(** The number of status bytes to skip after the two bytes of the status
    type; [None] for a status type the parser does not know. *)
Definition status_skip (status_type : list byte) : option nat :=
  if bytes_eqb status_type [x00; xe0] then Some 7%nat
  else if bytes_eqb status_type [x00; xfe] then Some 1%nat
  else if bytes_eqb status_type [x00; xee] then Some 2%nat
  else if bytes_eqb status_type [x00; xff] then Some 0%nat
  else None.

Definition no_walk : walk_result :=
  {| packets := []; iterations := 0; exit_kind := LoopEnd |}.

(** [_handle_receive_response], as the walk it performs over
    [frame.payload]. *)
Definition _handle_receive_response (frame_payload : option (list byte))
  : walk_result :=
  match frame_payload with
  | None => no_walk
  | Some payload =>
      if (length payload <? 3)%nat then no_walk
      else
        let status_type := slice 0 2 payload in
        let offset := 2%nat in
        match status_skip status_type with
        | None => no_walk
        | Some skip =>
            let offset := (offset + skip)%nat in
            let offset := (offset + 3)%nat in
            walk payload offset
        end
  end.

(** [MQTTBridgeSink.frame]: only receive responses that come from the
    gateway are walked. *)
Definition frame (f : Frame) : walk_result :=
  if negb (is_from_gateway f) then no_walk
  else
    match type f with
    | Some ty =>
        if bytes_eqb ty RECEIVE_RESPONSE
        then _handle_receive_response (payload f)
        else no_walk
    | None => no_walk
    end.

End MQTTBridgeSink.

(** ** stringhex *)

(** Python [str] values are lists of characters here. *)
Definition hex_digits : list ascii :=
  ["0"; "1"; "2"; "3"; "4"; "5"; "6"; "7"; "8"; "9";
   "a"; "b"; "c"; "d"; "e"; "f"]%char.

(** ["{0:02x}".format(x)] for [0 <= x < 256]. *)
Definition format_02x (x : Z) : list ascii :=
  [nth (Z.to_nat (x / 16)) hex_digits "0"%char;
   nth (Z.to_nat (x mod 16)) hex_digits "0"%char].

(** [delimiter.join(parts)] *)
Fixpoint join (delimiter : list ascii) (parts : list (list ascii)) : list ascii :=
  match parts with
  | [] => []
  | [p] => p
  | p :: rest => p ++ delimiter ++ join delimiter rest
  end.

Definition stringhex (bytes_data : list byte) (delimiter : list ascii)
  : list ascii :=
  join delimiter (map (fun x => format_02x (b2z x)) bytes_data).

(** The value of a hexadecimal digit, used to read [format_02x] back. *)
Definition hex_value (c : ascii) : Z :=
  match find (fun p => Ascii.eqb (fst p) c)
             (combine hex_digits (map Z.of_nat (seq 0 16))) with
  | Some p => snd p
  | None => 0
  end.

Definition parse_02x (s : list ascii) : Z :=
  match s with
  | [hi; lo] => 16 * hex_value hi + hex_value lo
  | _ => 0
  end.

(** ** MQTTBridge.setup_mqtt *)

Module SetupMQTT.

Definition max_retries : nat := 5.

(** The [while retry_count < max_retries and self.running] loop.
    [running n] is the value of [self.running] read when [retry_count] is
    [n], [connects n] tells whether the body of the [try] block runs to
    its [return True] at that point. The result is the value returned and
    the number of times the [try] block was entered. *)
Equations? loop (running connects : nat -> bool) (retry_count : nat)
  : bool * nat by wf (max_retries - retry_count)%nat lt :=
loop running connects retry_count
  with MQTTBridgeSink.inspect ((retry_count <? max_retries)%nat && running retry_count) => {
  | exist _ false _ := (false, 0%nat);
  | exist _ true Hcond with connects retry_count => {
      | true := (true, 1%nat);
      | false with MQTTBridgeSink.inspect (max_retries <=? retry_count + 1)%nat => {
          | exist _ true _ := (false, 1%nat);
          | exist _ false _ :=
              let r := loop running connects (retry_count + 1) in
              (fst r, S (snd r)) } } }.
Proof.
  apply andb_true_iff in Hcond as [Hcond _]. apply Nat.ltb_lt in Hcond. lia.
Qed.

Definition setup_mqtt (running connects : nat -> bool) : bool * nat :=
  loop running connects 0.

End SetupMQTT.

(** ** Sample data *)

(** A bridge with a client, an empty node table, no recorded report and
    nothing published yet. *)
Definition fresh_bridge (window : float) : MQTTBridge.t :=
  {| MQTTBridge.mqtt_client := true;
     MQTTBridge.node_table := ∅;
     MQTTBridge.last_reports := ∅;
     MQTTBridge.dedup_window := window;
     MQTTBridge.published := [] |}.

(** The report of node 42: 100 V, 8 A, 25 degrees, slot 5. *)
Definition sample_report (slot : Z) : PowerReport :=
  {| node_id := 42;
     voltage_in := 100;
     voltage_out := 0;
     current := 8;
     duty_cycle := 100;
     temperature := 25;
     rssi := Some 123;
     slot := Some slot |}.

(** A bridge that has recorded the sample report in slot 5 at time 1000. *)
Definition bridge_after_slot_5 : MQTTBridge.t :=
  MQTTBridge.publish_power_report (fresh_bridge 5) 1000 1 42 (sample_report 5).

(** The payload of scenario S3: status [00 FF], three bytes of slot
    counter, then one power report of node 42 with 13 bytes of data. *)
Definition s3_data : list byte :=
  [x7d; x00; x00; xff; x64; x00; x00; x00; x00; x00; x00; x05; x7b].

Definition s3_payload : list byte :=
  [x00; xff; x00; x00; x00; x31; x00; x2a; x00; x00; x00; x0d] ++ s3_data.

Definition s3_packet : MQTTBridgeSink.packet :=
  {| MQTTBridgeSink.packet_type := 0x31;
     MQTTBridgeSink.packet_node_id := 42;
     MQTTBridgeSink.packet_data := s3_data |}.

(** ** Notions used to state further properties *)

(** A frame as the receiver may hand it to the sink: built from data of at
    least four bytes whose last two bytes check the bytes before them. *)
Definition checked_frame (f : Frame) : Prop :=
  f = Frame_init (frame_data f)
  /\ (4 <= length (frame_data f))%nat
  /\ CRC.verify_checksum
       (take (length (frame_data f) - 2) (frame_data f))
       (drop (length (frame_data f) - 2) (frame_data f)) = true.

(** The sender's side of [ESCAPE_MAP]: the program only decodes, a sender
    replaces each byte that is a value of the table by its two-byte key. *)
Fixpoint escape_key (table : list ((byte * byte) * byte)) (b : byte)
  : option (byte * byte) :=
  match table with
  | [] => None
  | (k, v) :: table' => if Byte.eqb v b then Some k else escape_key table' b
  end.

Definition escape_byte (b : byte) : list byte :=
  match escape_key FrameReceiver.ESCAPE_MAP b with
  | Some (k1, k2) => [k1; k2]
  | None => [b]
  end.

Definition escape_frame (data : list byte) : list byte :=
  concat (map escape_byte data).

(** A packet whose fields fit the header: one byte of type, two of node
    id, one of data length. *)
Definition packet_ok (p : MQTTBridgeSink.packet) : Prop :=
  0 <= MQTTBridgeSink.packet_type p < 256
  /\ 0 <= MQTTBridgeSink.packet_node_id p < 65536
  /\ (length (MQTTBridgeSink.packet_data p) <= 255)%nat.

(** The bytes the walk expects for one packet: type, node id (high byte
    first), three bytes of short address and DSN, data length, data. The
    program only parses them. *)
Definition wire_packet (filler : byte * byte * byte) (p : MQTTBridgeSink.packet)
  : list byte :=
  let '(f1, f2, f3) := filler in
  z2b (MQTTBridgeSink.packet_type p)
  :: z2b (MQTTBridgeSink.packet_node_id p / 256)
  :: z2b (MQTTBridgeSink.packet_node_id p mod 256)
  :: f1 :: f2 :: f3
  :: z2b (Z.of_nat (length (MQTTBridgeSink.packet_data p)))
  :: MQTTBridgeSink.packet_data p.

Definition wire_packets (ps : list ((byte * byte * byte) * MQTTBridgeSink.packet))
  : list byte :=
  concat (map (fun fp => wire_packet (fst fp) (snd fp)) ps).

(** The state the gate records for a report handled at time [t]. *)
Definition recorded (t : float) (report : PowerReport)
  : float * option Z * MQTTBridge.last_values :=
  (t, slot report,
   {| MQTTBridge.vin := voltage_in report; MQTTBridge.cur := current report;
      MQTTBridge.temp := temperature report |}).

(** The same report arriving again and again, at the given times. *)
Fixpoint replay (bridge : MQTTBridge.t) (gateway_id node_id : Z)
    (report : PowerReport) (times : list float) : MQTTBridge.t :=
  match times with
  | [] => bridge
  | t :: times' =>
      replay (MQTTBridge.publish_power_report bridge t gateway_id node_id report)
             gateway_id node_id report times'
  end.

(** Each time is less than a window after the one before it, as the gate
    measures it. *)
Fixpoint gaps_within (window last : float) (times : list float) : bool :=
  match times with
  | [] => true
  | t :: times' => (t - last <? window)%float && gaps_within window t times'
  end.

(** The five measurements of a report are finite numbers. *)
Definition finite_report (r : PowerReport) : bool :=
  is_finite (voltage_in r) && is_finite (voltage_out r)
  && is_finite (current r) && is_finite (duty_cycle r)
  && is_finite (temperature r).

(** * Properties *)

(** ** Facts about bytes *)

Lemma b2z_range (b : byte) : 0 <= b2z b < 256.
Proof.
  unfold b2z. pose proof (Byte.to_N_bounded b). lia.
Qed.

Lemma b2z_z2b (z : Z) : 0 <= z < 256 -> b2z (z2b z) = z.
Proof.
  intros Hz. unfold z2b, b2z.
  destruct (Byte.of_N (Z.to_N z)) as [b|] eqn:E.
  - apply Byte.to_of_N in E. rewrite E. lia.
  - apply Byte.of_N_None_iff in E. lia.
Qed.

Lemma byte_eqb_eq (a b : byte) : Byte.eqb a b = true <-> a = b.
Proof.
  split; [apply Byte.byte_dec_bl | apply Byte.byte_dec_lb].
Qed.

Lemma bytes_eqb_eq (l1 l2 : list byte) : bytes_eqb l1 l2 = true <-> l1 = l2.
Proof.
  revert l2. induction l1 as [|a l1 IH]; intros [|b l2]; simpl;
    try (split; [discriminate | discriminate]); [tauto|].
  rewrite andb_true_iff, byte_eqb_eq, IH. split.
  - intros [-> ->]. reflexivity.
  - intros [= -> ->]. auto.
Qed.

(** ** Facts about the checksum *)

Section CRCFacts.
Import CRC.

Lemma lxor_small (n a b : Z) :
  0 <= n -> 0 <= a < 2 ^ n -> 0 <= b < 2 ^ n -> 0 <= Z.lxor a b < 2 ^ n.
Proof.
  intros Hn Ha Hb.
  assert (H0 : 0 <= Z.lxor a b) by (apply Z.lxor_nonneg; lia).
  split; [exact H0|].
  destruct (Z.eq_dec (Z.lxor a b) 0) as [->|Hne]; [lia|].
  assert (Hpos : 0 < n).
  { destruct (Z.eq_dec n 0) as [->|]; [|lia].
    assert (a = 0) by (change (2 ^ 0) with 1 in Ha; lia).
    assert (b = 0) by (change (2 ^ 0) with 1 in Hb; lia).
    subst. contradiction Hne. reflexivity. }
  apply Z.log2_lt_pow2; [lia|].
  eapply Z.le_lt_trans; [apply Z.log2_lxor; lia|].
  apply Z.max_lub_lt.
  - destruct (Z.eq_dec a 0) as [->|]; [simpl; lia|]. apply Z.log2_lt_pow2; lia.
  - destruct (Z.eq_dec b 0) as [->|]; [simpl; lia|]. apply Z.log2_lt_pow2; lia.
Qed.

Lemma crc_bit_u16 (crc : Z) : u16 crc -> u16 (crc_bit crc).
Proof.
  unfold u16, crc_bit. intros H.
  assert (Hs : 0 <= Z.shiftr crc 1 < 2 ^ 16).
  { rewrite Z.shiftr_div_pow2 by lia. change (2 ^ 1) with 2.
    change (2 ^ 16) with 65536. split.
    - apply Z.div_pos; lia.
    - apply Z.div_lt_upper_bound; lia. }
  destruct (Z.land crc 1 =? 0).
  - change (2 ^ 16) with 65536 in Hs. exact Hs.
  - change 65536 with (2 ^ 16). apply lxor_small; [lia | exact Hs |].
    change (2 ^ 16) with 65536. lia.
Qed.

Lemma crc_byte_u16 (crc : Z) (b : byte) : u16 crc -> u16 (crc_byte crc b).
Proof.
  intros H. unfold crc_byte.
  assert (H1 : u16 (Z.lxor crc (b2z b))).
  { unfold u16 in *. change 65536 with (2 ^ 16).
    apply lxor_small; [lia | change (2 ^ 16) with 65536; lia |].
    pose proof (b2z_range b). change (2 ^ 16) with 65536. lia. }
  generalize dependent (Z.lxor crc (b2z b)). intros z Hz.
  do 8 (try apply crc_bit_u16). exact Hz.
Qed.

Lemma fold_crc_u16 (data : list byte) (crc : Z) :
  u16 crc -> u16 (fold_left crc_byte data crc).
Proof.
  revert crc. induction data as [|b data IH]; intros crc H; simpl.
  - exact H.
  - apply IH, crc_byte_u16, H.
Qed.

Lemma calculate_crc_u16 (data : list byte) : u16 (calculate_crc data).
Proof.
  apply fold_crc_u16. unfold u16. lia.
Qed.

Lemma from_bytes_little_split (z : Z) :
  u16 z -> from_bytes_little [z2b (Z.land z 0xFF); z2b (Z.shiftr z 8)] = z.
Proof.
  unfold u16. intros H. simpl.
  change 255 with (Z.ones 8). rewrite Z.land_ones by lia.
  rewrite Z.shiftr_div_pow2 by lia. change (2 ^ 8) with 256.
  rewrite !b2z_z2b.
  - pose proof (Z.div_mod z 256). lia.
  - split; [apply Z.div_pos; lia | apply Z.div_lt_upper_bound; lia].
  - apply Z.mod_pos_bound. lia.
Qed.

(** The code's bit test and shift agree with "the bit shifted out". *)
Lemma crc_bit_shift_out (crc : Z) : crc_bit crc = shift_out crc.
Proof.
  unfold crc_bit, shift_out.
  change 1 with (Z.ones 1) at 1. rewrite Z.land_ones by lia.
  rewrite Z.shiftr_div_pow2 by lia. change (2 ^ 1) with 2.
  pose proof (Z.mod_pos_bound crc 2).
  destruct (crc mod 2 =? 0) eqn:E0, (crc mod 2 =? 1) eqn:E1; try reflexivity; lia.
Qed.

(** XOR with a byte only touches the low byte of the register. *)
Lemma lxor_low_byte (crc : Z) (b : byte) :
  Z.lxor crc (b2z b) = xor_into_low_byte crc b.
Proof.
  unfold xor_into_low_byte.
  pose proof (b2z_range b) as Hb.
  assert (Hlow : 0 <= Z.lxor (crc mod 256) (b2z b) < 2 ^ 8).
  { apply lxor_small; [lia | apply Z.mod_pos_bound; lia | exact Hb]. }
  change (2 ^ 8) with 256 in Hlow.
  assert (Hdiv : Z.lxor crc (b2z b) / 256 = crc / 256).
  { change 256 with (2 ^ 8). rewrite <- !Z.shiftr_div_pow2 by lia.
    rewrite Z.shiftr_lxor. rewrite (Z.shiftr_div_pow2 (b2z b)) by lia.
    change (2 ^ 8) with 256. rewrite (Z.div_small (b2z b)) by lia.
    apply Z.lxor_0_r. }
  assert (Hmod : Z.lxor crc (b2z b) mod 256 = Z.lxor (crc mod 256) (b2z b)).
  { change 256 with (2 ^ 8). rewrite <- !Z.land_ones by lia.
    assert (Hb8 : Z.land (b2z b) (Z.ones 8) = b2z b).
    { rewrite Z.land_ones by lia. apply Z.mod_small. exact Hb. }
    rewrite <- Hb8 at 2. apply Z.bits_inj'. intros n _.
    rewrite !Z.land_spec, !Z.lxor_spec, !Z.land_spec.
    destruct (Z.testbit crc n), (Z.testbit (b2z b) n), (Z.testbit (Z.ones 8) n);
      reflexivity. }
  pose proof (Z.div_mod (Z.lxor crc (b2z b)) 256). lia.
Qed.

Lemma iter_ext {A} (f g : A -> A) (n : nat) (x : A) :
  (forall y, f y = g y) -> Nat.iter n f x = Nat.iter n g x.
Proof.
  intros H. induction n as [|n IH]; simpl; [reflexivity|].
  rewrite IH. apply H.
Qed.

Lemma calculate_crc_described (data : list byte) :
  calculate_crc data = crc_described data.
Proof.
  unfold calculate_crc, crc_described. generalize 0x8408.
  induction data as [|b data IH]; intros reg; cbn [fold_left]; [reflexivity|].
  rewrite IH. f_equal. unfold crc_byte.
  rewrite lxor_low_byte. apply iter_ext, crc_bit_shift_out.
Qed.

End CRCFacts.

(** C9. The checksum is the register algorithm with polynomial and initial
    value 0x8408 (each byte XORed into the low byte of the register, then
    eight shift-right steps that XOR 0x8408 in when the bit shifted out is
    1); the checksum of the empty body is 0x8408; and every body verifies
    against its own checksum stored little-endian in two bytes. *)
Theorem C9_crc_algorithm_and_round_trip :
  (forall data, CRC.calculate_crc data = CRC.crc_described data) /\
  CRC.calculate_crc [] = 0x8408 /\
  (forall data, length (CRC.crc_le data) = 2%nat /\
                CRC.verify_checksum data (CRC.crc_le data) = true).
Proof.
  split; [apply calculate_crc_described|].
  split; [reflexivity|].
  intros data. split; [reflexivity|].
  unfold CRC.verify_checksum, CRC.crc_le.
  rewrite from_bytes_little_split by apply calculate_crc_u16.
  apply Z.eqb_refl.
Qed.

Example crc_ping :
  CRC.crc_le [x80; x00; x0b; x01] = [x1a; x52].
Proof. vm_compute. reflexivity. Qed.

Example unescape_ex :
  FrameReceiver.unescape_frame [x80; x7e; x02; x01; x7e; x00; x7e]
  = [x80; x23; x01; x7e; x7e].
Proof. vm_compute. reflexivity. Qed.

(** ** Facts about the frame receiver *)

Section FrameReceiverFacts.
Import FrameReceiver.

Lemma find_marker_cons2 (m : byte * byte) (a b : byte) (tl : list byte) :
  find_marker m (a :: b :: tl) =
  if pair_eqb (a, b) m then Some 0%nat
  else option_map S (find_marker m (b :: tl)).
Proof. reflexivity. Qed.

Lemma find_marker_bound (m : byte * byte) (buf : list byte) (i : nat) :
  find_marker m buf = Some i -> (i + 2 <= length buf)%nat.
Proof.
  revert i. induction buf as [|a tl IH]; intros i; [discriminate|].
  destruct tl as [|b tl']; [discriminate|].
  rewrite find_marker_cons2. destruct (pair_eqb (a, b) m).
  - intros [= <-]. simpl. lia.
  - destruct (find_marker m (b :: tl')) as [j|] eqn:E; cbn [option_map];
      [|discriminate].
    intros [= <-]. specialize (IH j eq_refl). simpl in *. lia.
Qed.

Lemma find_marker_app (m : byte * byte) (a b : list byte) (i : nat) :
  find_marker m a = Some i -> find_marker m (a ++ b) = Some i.
Proof.
  revert i. induction a as [|x tl IH]; intros i; [discriminate|].
  destruct tl as [|y tl']; [discriminate|].
  cbn [app]. rewrite !find_marker_cons2. destruct (pair_eqb (x, y) m); [auto|].
  destruct (find_marker m (y :: tl')) as [j|] eqn:E; cbn [option_map];
    [|discriminate].
  intros [= <-]. change (y :: tl' ++ b) with ((y :: tl') ++ b).
  rewrite (IH j eq_refl). reflexivity.
Qed.

Lemma find_marker_from_bound (m : byte * byte) (from : nat) (buf : list byte) (i : nat) :
  find_marker_from m from buf = Some i ->
  (from <= i /\ i + 2 <= length buf)%nat.
Proof.
  unfold find_marker_from.
  destruct (find_marker m (drop from buf)) as [j|] eqn:E; cbn [option_map];
    [|discriminate].
  intros [= <-]. apply find_marker_bound in E. rewrite length_drop in E. lia.
Qed.

Lemma find_marker_from_app (m : byte * byte) (from : nat) (a b : list byte) (i : nat) :
  find_marker_from m from a = Some i ->
  find_marker_from m from (a ++ b) = Some i.
Proof.
  intros H. pose proof (find_marker_from_bound _ _ _ _ H) as Hb.
  unfold find_marker_from in *.
  rewrite drop_app_le by lia.
  destruct (find_marker m (drop from a)) as [j|] eqn:E; [|discriminate].
  rewrite (find_marker_app _ _ _ _ E). exact H.
Qed.

(** The loop body, for any buffer. *)
Lemma process_body (buf : list byte) :
  process buf =
  match find_marker FRAME_START buf with
  | None => ([], buf)
  | Some start_idx =>
      match find_marker_from FRAME_END (start_idx + 2) buf with
      | None => ([], buf)
      | Some end_idx =>
          let r := process (drop (end_idx + 2) buf) in
          (deliver (unescape_frame (slice (start_idx + 2) end_idx buf)) ++ fst r,
           snd r)
      end
  end.
Proof.
  destruct buf as [|b tl]; [reflexivity|].
  simp process.
  destruct (find_marker FRAME_START (b :: tl)) as [s|]; simp process;
    [|reflexivity].
  destruct (find_marker_from FRAME_END (s + 2) (b :: tl)) as [e|]; simp process;
    reflexivity.
Qed.

Lemma slice_app_le {A} (lo hi : nat) (a b : list A) :
  (hi <= length a)%nat -> slice lo hi (a ++ b) = slice lo hi a.
Proof.
  intros H. unfold slice.
  destruct (Nat.le_gt_cases lo (length a)) as [Hlo|Hlo].
  - rewrite drop_app_le by lia. apply take_app_le. rewrite length_drop. lia.
  - replace (hi - lo)%nat with 0%nat by lia. reflexivity.
Qed.

(** Feeding [a] and then [b] is feeding [a ++ b]: the loop finds in
    [a ++ b] the frames it finds in [a], and goes on with what it left. *)
Lemma process_app (a b : list byte) :
  process (a ++ b) =
  (fst (process a) ++ fst (process (snd (process a) ++ b)),
   snd (process (snd (process a) ++ b))).
Proof.
  remember (length a) as n eqn:Hn. revert a Hn.
  induction n as [n IH] using lt_wf_ind. intros a Hn.
  rewrite (process_body a).
  destruct (find_marker FRAME_START a) as [s|] eqn:Es.
  2: { cbn [fst snd app]. destruct (process (a ++ b)); reflexivity. }
  destruct (find_marker_from FRAME_END (s + 2) a) as [e|] eqn:Ee.
  2: { cbn [fst snd app]. destruct (process (a ++ b)); reflexivity. }
  pose proof (find_marker_from_bound _ _ _ _ Ee) as Hb.
  rewrite (process_body (a ++ b)).
  rewrite (find_marker_app _ _ b _ Es), (find_marker_from_app _ _ _ b _ Ee).
  cbn zeta. cbn [fst snd].
  rewrite slice_app_le by lia.
  rewrite drop_app_le by lia.
  rewrite (IH (length (drop (e + 2) a))) by (rewrite ?length_drop; lia).
  cbn [fst snd]. rewrite app_assoc. reflexivity.
Qed.

(** A buffer left by the loop holds no complete frame. *)
Lemma process_idem (buf : list byte) :
  process (snd (process buf)) = ([], snd (process buf)).
Proof.
  remember (length buf) as n eqn:Hn. revert buf Hn.
  induction n as [n IH] using lt_wf_ind. intros buf Hn.
  rewrite (process_body buf).
  destruct (find_marker FRAME_START buf) as [s|] eqn:Es.
  2: { cbn [snd]. rewrite process_body, Es. reflexivity. }
  destruct (find_marker_from FRAME_END (s + 2) buf) as [e|] eqn:Ee.
  2: { cbn [snd]. rewrite process_body, Es, Ee. reflexivity. }
  pose proof (find_marker_from_bound _ _ _ _ Ee) as Hb.
  cbn zeta. cbn [snd].
  apply (IH (length (drop (e + 2) buf))); [rewrite length_drop; lia | reflexivity].
Qed.

Lemma extend_from_slice_app (r : t) (a b : list byte) :
  extend_from_slice r (a ++ b) =
  (fst (extend_from_slice (fst (extend_from_slice r a)) b),
   snd (extend_from_slice r a) ++ snd (extend_from_slice (fst (extend_from_slice r a)) b)).
Proof.
  unfold extend_from_slice. cbn [fst snd buffer].
  rewrite app_assoc, process_app. reflexivity.
Qed.

Lemma feed_all_concat (chunks : list (list byte)) (r : t) :
  process (buffer r) = ([], buffer r) ->
  feed_all r chunks = extend_from_slice r (concat chunks).
Proof.
  revert r. induction chunks as [|c chunks IH]; intros r Hr.
  - cbn [feed_all concat]. unfold extend_from_slice.
    rewrite app_nil_r, Hr. destruct r. reflexivity.
  - cbn [feed_all concat]. rewrite extend_from_slice_app.
    destruct (extend_from_slice r c) as [r1 fs1] eqn:E1. cbn [fst snd].
    assert (Hr1 : process (buffer r1) = ([], buffer r1)).
    { unfold extend_from_slice in E1. injection E1 as <- _. cbn [buffer].
      apply process_idem. }
    rewrite (IH r1 Hr1).
    destruct (extend_from_slice r1 (concat chunks)). reflexivity.
Qed.

(** *** One region between sentinels *)

Lemma find_marker_none_cons2 (m : byte * byte) (a b : byte) (tl : list byte) :
  find_marker m (a :: b :: tl) = None ->
  pair_eqb (a, b) m = false /\ find_marker m (b :: tl) = None.
Proof.
  rewrite find_marker_cons2. destruct (pair_eqb (a, b) m); [discriminate|].
  destruct (find_marker m (b :: tl)); [discriminate|]. auto.
Qed.

(** The first end sentinel after a region that holds none is the one that
    follows the region. *)
Lemma find_end_after_region (region tail : list byte) :
  find_marker FRAME_END region = None ->
  find_marker FRAME_END (region ++ [x7e; x08] ++ tail) = Some (length region).
Proof.
  induction region as [|a tl IH]; intros H; [reflexivity|].
  destruct tl as [|b tl'].
  - cbn [app]. rewrite find_marker_cons2.
    destruct (pair_eqb (a, x7e) FRAME_END) eqn:E.
    + unfold pair_eqb in E. cbn [fst snd FRAME_END] in E.
      apply andb_true_iff in E as [_ E]. discriminate.
    + reflexivity.
  - apply find_marker_none_cons2 in H as [Hp Hn].
    change ((a :: b :: tl') ++ [x7e; x08] ++ tail)
      with (a :: b :: (tl' ++ [x7e; x08] ++ tail)).
    rewrite find_marker_cons2, Hp.
    change (b :: tl' ++ [x7e; x08] ++ tail) with ((b :: tl') ++ [x7e; x08] ++ tail).
    rewrite (IH Hn). reflexivity.
Qed.

(** A start sentinel, a region without end sentinel, an end sentinel: the
    loop hands the unescaped region to [deliver] and goes on with the bytes
    after the end sentinel. *)
Lemma process_one_region (region tail : list byte) :
  find_marker FRAME_END region = None ->
  process ([x7e; x07] ++ region ++ [x7e; x08] ++ tail) =
  (deliver (unescape_frame region) ++ fst (process tail), snd (process tail)).
Proof.
  intros H. rewrite process_body.
  change (find_marker FRAME_START ([x7e; x07] ++ region ++ [x7e; x08] ++ tail))
    with (Some 0%nat).
  unfold find_marker_from.
  change (drop (0 + 2) ([x7e; x07] ++ region ++ [x7e; x08] ++ tail))
    with (region ++ [x7e; x08] ++ tail).
  rewrite (find_end_after_region _ tail H). cbn [option_map]. cbn zeta.
  unfold slice.
  change (drop (0 + 2) ([x7e; x07] ++ region ++ [x7e; x08] ++ tail))
    with (region ++ [x7e; x08] ++ tail).
  replace (0 + 2 + length region - (0 + 2))%nat with (length region) by lia.
  rewrite take_app_length.
  replace (drop (0 + 2 + length region + 2) ([x7e; x07] ++ region ++ [x7e; x08] ++ tail))
    with tail; [reflexivity|].
  change ([x7e; x07] ++ region ++ [x7e; x08] ++ tail)
    with (x7e :: x07 :: (region ++ x7e :: x08 :: tail)).
  replace (0 + 2 + length region + 2)%nat with (S (S (length region + 2))) by lia.
  cbn [drop]. rewrite drop_app_add. reflexivity.
Qed.

(** *** Unescaping *)

Lemma escape_lookup_7e_7e : escape_lookup ESCAPE_MAP (x7e, x7e) = None.
Proof. reflexivity. Qed.

Lemma unescape_cons2 (d d1 : byte) (rest : list byte) :
  unescape_frame (d :: d1 :: rest) =
  if Byte.eqb d x7e then
    match escape_lookup ESCAPE_MAP (d, d1) with
    | Some v => v :: unescape_frame rest
    | None => d :: unescape_frame (d1 :: rest)
    end
  else d :: unescape_frame (d1 :: rest).
Proof. reflexivity. Qed.

(** A 7E that starts no escape sequence is copied. *)
Lemma unescape_lone_7e (rest : list byte) :
  starts_escape rest = false ->
  unescape_frame (x7e :: rest) = x7e :: unescape_frame rest.
Proof.
  destruct rest as [|b post]; [reflexivity|].
  unfold starts_escape. rewrite unescape_cons2.
  change (Byte.eqb x7e x7e) with true. cbv iota.
  destruct (escape_lookup ESCAPE_MAP (x7e, b)); [discriminate | reflexivity].
Qed.

(** A 7E is never the second byte of an escape sequence, so unescaping
    splits in front of it. *)
Lemma unescape_app_7e (pre rest : list byte) :
  unescape_frame (pre ++ x7e :: rest) =
  unescape_frame pre ++ unescape_frame (x7e :: rest).
Proof.
  remember (length pre) as n eqn:Hn. revert pre Hn.
  induction n as [n IH] using lt_wf_ind. intros pre Hn.
  destruct pre as [|d [|d1 pre']].
  - reflexivity.
  - cbn [app]. rewrite unescape_cons2.
    destruct (Byte.eqb d x7e) eqn:Ed; [|reflexivity].
    apply byte_eqb_eq in Ed. subst d. rewrite escape_lookup_7e_7e. reflexivity.
  - change ((d :: d1 :: pre') ++ x7e :: rest)
      with (d :: d1 :: (pre' ++ x7e :: rest)).
    rewrite !unescape_cons2.
    assert (H1 : unescape_frame (d1 :: pre' ++ x7e :: rest) =
                 unescape_frame (d1 :: pre') ++ unescape_frame (x7e :: rest)).
    { change (d1 :: pre' ++ x7e :: rest) with ((d1 :: pre') ++ x7e :: rest).
      apply (IH (length (d1 :: pre'))); [subst n; simpl; lia | reflexivity]. }
    assert (H2 : unescape_frame (pre' ++ x7e :: rest) =
                 unescape_frame pre' ++ unescape_frame (x7e :: rest)).
    { apply (IH (length pre')); [subst n; simpl; lia | reflexivity]. }
    destruct (Byte.eqb d x7e); [|rewrite H1; reflexivity].
    destruct (escape_lookup ESCAPE_MAP (d, d1)); [rewrite H2|rewrite H1];
      reflexivity.
Qed.

(** *** A stream without sentinels *)

Lemma find_marker_zeros (m : byte * byte) (n : nat) :
  pair_eqb (x00, x00) m = false -> find_marker m (repeat x00 n) = None.
Proof.
  intros Hm. induction n as [|n IH]; [reflexivity|].
  destruct n as [|n]; [reflexivity|].
  change (repeat x00 (S (S n))) with (x00 :: x00 :: repeat x00 n).
  rewrite find_marker_cons2, Hm.
  change (x00 :: repeat x00 n) with (repeat x00 (S n)). rewrite IH. reflexivity.
Qed.

Lemma concat_repeat_zeros (k n : nat) :
  concat (repeat (repeat x00 k) n) = repeat x00 (k * n).
Proof.
  induction n as [|n IH]; cbn [repeat concat].
  - rewrite Nat.mul_0_r. reflexivity.
  - rewrite IH, <- repeat_app. f_equal. lia.
Qed.

End FrameReceiverFacts.

(** C7. Fragmentation invariance: however a byte stream is cut into chunks
    and fed to a fresh receiver one chunk per call, the frames handed to the
    sink (and the buffer left behind) are those of feeding the whole stream
    in a single call. *)
Theorem C7_fragmentation_invariance (chunks : list (list byte)) :
  FrameReceiver.feed_all FrameReceiver.init chunks =
  FrameReceiver.extend_from_slice FrameReceiver.init (concat chunks).
Proof.
  apply feed_all_concat. reflexivity.
Qed.

(** A ping response from gateway 0 (garbage in front, one byte behind) is
    handed to the sink whole; with a wrong checksum it is not. *)
Example process_ping_ok :
  FrameReceiver.process
    [x00; x7e; x07; x80; x00; x0b; x01; x1a; x52; x7e; x08; x11]
  = ([Frame_init [x80; x00; x0b; x01; x1a; x52]], [x11]).
Proof. vm_compute. reflexivity. Qed.

(** The same bytes one at a time. *)
Example feed_ping_bytewise :
  FrameReceiver.feed_all FrameReceiver.init
    [[x7e]; [x07]; [x80]; [x00]; [x0b]; [x01]; [x1a]; [x52]; [x7e]; [x08]]
  = ({| FrameReceiver.buffer := [] |}, [Frame_init [x80; x00; x0b; x01; x1a; x52]]).
Proof. vm_compute. reflexivity. Qed.

(** Every body of two bytes or more passes [deliver] once its checksum is
    attached, the bodies of two and three bytes included. *)
Lemma deliver_body_with_crc (body : list byte) :
  (2 <= length body)%nat ->
  FrameReceiver.deliver (body ++ CRC.crc_le body)
  = [Frame_init (body ++ CRC.crc_le body)].
Proof.
  intros H. unfold FrameReceiver.deliver.
  assert (Hlen : length (body ++ CRC.crc_le body) = (length body + 2)%nat).
  { rewrite length_app. reflexivity. }
  rewrite Hlen.
  destruct (4 <=? length body + 2)%nat eqn:E; [|apply Nat.leb_gt in E; lia].
  replace (length body + 2 - 2)%nat with (length body) by lia.
  rewrite take_app_length, drop_app_length.
  unfold CRC.verify_checksum, CRC.crc_le.
  rewrite from_bytes_little_split by apply calculate_crc_u16.
  rewrite Z.eqb_refl. reflexivity.
Qed.

(** C2, as the code has it. The body [80 00] is two bytes long; with its
    checksum [20 80] between the sentinels, the four unescaped bytes pass
    the length test and the frame callback is invoked. *)
Theorem C2_two_byte_body_reaches_sink :
  CRC.crc_le [x80; x00] = [x20; x80] /\
  FrameReceiver.extend_from_slice FrameReceiver.init
    [x7e; x07; x80; x00; x20; x80; x7e; x08]
  = ({| FrameReceiver.buffer := [] |}, [Frame_init [x80; x00; x20; x80]]).
Proof. vm_compute. split; reflexivity. Qed.

(** C3, as stated, fails: the region [80 00 01 49 7E 09 79 F2] holds a 7E
    followed by 09, which is neither a sentinel nor an escape sequence, and
    the frame decoded from it reaches the sink. *)
Lemma C3_lone_7E_frame_is_delivered :
  FrameReceiver.escape_lookup FrameReceiver.ESCAPE_MAP (x7e, x09) = None /\
  FrameReceiver.extend_from_slice FrameReceiver.init
    [x7e; x07; x80; x00; x01; x49; x7e; x09; x79; xf2; x7e; x08]
  = ({| FrameReceiver.buffer := [] |},
     [Frame_init [x80; x00; x01; x49; x7e; x09; x79; xf2]]).
Proof. vm_compute. split; reflexivity. Qed.

(** C4, as the code has it. [MAX_BUFFER_SIZE] is never consulted by the
    receiver: after [n] reads of 1024 zero bytes the buffer holds all
    [1024 * n] of them, so 1025 reads take it past the bound. *)
Theorem C4_buffer_grows_without_bound (n : nat) :
  let fed := FrameReceiver.feed_all FrameReceiver.init (repeat (repeat x00 1024) n) in
  snd fed = [] /\
  length (FrameReceiver.buffer (fst fed)) = (1024 * n)%nat /\
  ((1025 <= n)%nat ->
   (MQTTBridge.MAX_BUFFER_SIZE < length (FrameReceiver.buffer (fst fed)))%nat).
Proof.
  cbv zeta.
  rewrite feed_all_concat by reflexivity.
  rewrite concat_repeat_zeros.
  unfold FrameReceiver.extend_from_slice, FrameReceiver.init.
  cbn [FrameReceiver.buffer app].
  rewrite process_body, find_marker_zeros by reflexivity.
  cbn [fst snd FrameReceiver.buffer]. rewrite repeat_length.
  split; [reflexivity|]. split; [reflexivity|].
  unfold MQTTBridge.MAX_BUFFER_SIZE. lia.
Qed.

Lemma C4_buffer_grows_without_bound_witness :
  (MQTTBridge.MAX_BUFFER_SIZE <
   length (FrameReceiver.buffer
             (fst (FrameReceiver.feed_all FrameReceiver.init
                     (repeat (repeat x00 1024) 1025)))))%nat.
Proof.
  apply (C4_buffer_grows_without_bound 1025). lia.
Defined.

(** ** Facts about floats *)

Section FloatFacts.

(** A window above zero is not taken for a disabled gate. *)
Lemma positive_not_leb_zero (w : float) :
  (0 <? w)%float = true -> (w <=? 0)%float = false.
Proof.
  rewrite FloatAxioms.ltb_spec, FloatAxioms.leb_spec.
  change (Prim2SF 0) with (S754_zero false).
  destruct (Prim2SF w) as [s|s| |s m e]; try destruct s; cbn; congruence.
Qed.

Lemma finite_cases (v : float) :
  is_finite v = true ->
  (exists s, Prim2SF v = S754_zero s) \/ (exists s m e, Prim2SF v = S754_finite s m e).
Proof.
  unfold is_finite, is_nan, is_infinity.
  rewrite !FloatAxioms.eqb_spec, FloatAxioms.abs_spec.
  change (Prim2SF infinity) with (S754_infinity false).
  destruct (Prim2SF v) as [s|s| |s m e].
  - intros _. left. eauto.
  - destruct s; cbn; discriminate.
  - cbn. discriminate.
  - intros _. right. eauto.
Qed.

(** A finite value is at distance zero from itself. *)
Lemma abs_sub_self (v : float) :
  is_finite v = true -> Prim2SF (abs (v - v)) = S754_zero false.
Proof.
  intros H. rewrite FloatAxioms.abs_spec, FloatAxioms.sub_spec.
  destruct (finite_cases v H) as [[s ->]|[s [m [e ->]]]].
  - destruct s; reflexivity.
  - unfold SF64sub, SFsub. rewrite Z.sub_diag. reflexivity.
Qed.

Lemma abs_sub_self_ltb (v c : float) :
  is_finite v = true ->
  SFltb (S754_zero false) (Prim2SF c) = true ->
  (abs (v - v) <? c)%float = true.
Proof.
  intros H Hc. rewrite FloatAxioms.ltb_spec, (abs_sub_self v H). exact Hc.
Qed.

End FloatFacts.

(** ** Facts about the deduplication gate *)

Section DedupFacts.
Import MQTTBridge.

Lemma option_Z_eqb_eq (a b : option Z) : option_Z_eqb a b = true <-> a = b.
Proof.
  destruct a as [x|], b as [y|]; cbn; try (split; congruence).
  rewrite Z.eqb_eq. split; congruence.
Qed.

Lemma publish_power_report_enabled (bridge : t) (now : float) (gw node : Z)
    (report : PowerReport) :
  mqtt_client bridge = true ->
  (dedup_window bridge <=? 0)%float = false ->
  publish_power_report bridge now gw node report =
  if should_publish bridge now (gw, node) report
  then publish (store bridge now (gw, node) report)
         (publication_of bridge now gw node report)
  else store bridge now (gw, node) report.
Proof.
  intros Hc Hw. unfold publish_power_report. rewrite Hc, Hw. reflexivity.
Qed.

(** Whatever the gate decides, the sample is recorded, time stamp
    included, and the rest of the bridge is left alone. *)
Lemma publish_power_report_records (bridge : t) (now : float) (gw node : Z)
    (report : PowerReport) :
  mqtt_client bridge = true ->
  (dedup_window bridge <=? 0)%float = false ->
  let bridge' := publish_power_report bridge now gw node report in
  last_reports bridge' !! (gw, node)
  = Some (now, slot report,
          {| vin := voltage_in report; cur := current report;
             temp := temperature report |})
  /\ mqtt_client bridge' = true
  /\ dedup_window bridge' = dedup_window bridge
  /\ node_table bridge' = node_table bridge.
Proof.
  intros Hc Hw. cbv zeta. rewrite publish_power_report_enabled by assumption.
  destruct (should_publish bridge now (gw, node) report);
    cbn [publish store last_reports mqtt_client dedup_window node_table];
    rewrite lookup_insert_eq; auto.
Qed.

(** A report that repeats the recorded sample inside the window does not
    pass the gate. *)
Lemma should_publish_repeat (bridge : t) (now last_time : float) (key : Z * Z)
    (report : PowerReport) :
  last_reports bridge !! key
  = Some (last_time, slot report,
          {| vin := voltage_in report; cur := current report;
             temp := temperature report |}) ->
  (now - last_time <? dedup_window bridge)%float = true ->
  is_finite (voltage_in report) = true ->
  is_finite (current report) = true ->
  is_finite (temperature report) = true ->
  should_publish bridge now key report = false.
Proof.
  intros Hl Hw Hv Hc Ht. unfold should_publish. rewrite Hl, Hw.
  rewrite (proj2 (option_Z_eqb_eq _ _) eq_refl).
  cbn [vin cur temp andb].
  rewrite !abs_sub_self_ltb by (assumption || reflexivity).
  reflexivity.
Qed.

End DedupFacts.

(** C1, as the code has it. With a window of zero or less the call returns
    before anything is stored or published: the bridge is left as it
    was, whatever the report. *)
Theorem C1_disabled_gate_publishes_nothing (bridge : MQTTBridge.t) (now : float)
    (gw node : Z) (report : PowerReport) :
  (MQTTBridge.dedup_window bridge <=? 0)%float = true ->
  MQTTBridge.publish_power_report bridge now gw node report = bridge.
Proof.
  intros Hw. unfold MQTTBridge.publish_power_report. rewrite Hw.
  destruct (MQTTBridge.mqtt_client bridge); reflexivity.
Qed.

Lemma C1_disabled_gate_publishes_nothing_witness :
  MQTTBridge.publish_power_report (fresh_bridge 0) 1000 1 42 (sample_report 5)
  = fresh_bridge 0.
Proof.
  apply (C1_disabled_gate_publishes_nothing (fresh_bridge 0) 1000 1 42
           (sample_report 5)).
  reflexivity.
Defined.

(** C5. With a window above zero, a report whose slot differs from the slot
    recorded for its key is published, whatever its values and its time. *)
Theorem C5_new_slot_is_published (bridge : MQTTBridge.t) (now : float)
    (gw node : Z) (report : PowerReport)
    (last_time : float) (last_slot : option Z) (last : MQTTBridge.last_values) :
  MQTTBridge.mqtt_client bridge = true ->
  (0 <? MQTTBridge.dedup_window bridge)%float = true ->
  MQTTBridge.last_reports bridge !! (gw, node) = Some (last_time, last_slot, last) ->
  slot report <> last_slot ->
  MQTTBridge.published (MQTTBridge.publish_power_report bridge now gw node report)
  = MQTTBridge.published bridge ++ [MQTTBridge.publication_of bridge now gw node report].
Proof.
  intros Hc Hw Hl Hs.
  rewrite publish_power_report_enabled
    by (assumption || apply positive_not_leb_zero, Hw).
  assert (Hneq : MQTTBridge.option_Z_eqb (slot report) last_slot = false).
  { destruct (MQTTBridge.option_Z_eqb (slot report) last_slot) eqn:E; [|reflexivity].
    apply option_Z_eqb_eq in E. contradiction. }
  unfold MQTTBridge.should_publish. rewrite Hl, Hneq, andb_false_r.
  reflexivity.
Qed.

Lemma C5_new_slot_is_published_witness :
  MQTTBridge.published
    (MQTTBridge.publish_power_report bridge_after_slot_5 1000.5 1 42 (sample_report 6))
  = MQTTBridge.published bridge_after_slot_5
      ++ [MQTTBridge.publication_of bridge_after_slot_5 1000.5 1 42 (sample_report 6)].
Proof.
  apply (C5_new_slot_is_published bridge_after_slot_5 1000.5 1 42 (sample_report 6)
           1000 (Some 5)
           {| MQTTBridge.vin := 100; MQTTBridge.cur := 8; MQTTBridge.temp := 25 |}).
  - reflexivity.
  - reflexivity.
  - vm_compute. reflexivity.
  - discriminate.
Defined.

(** C6, as stated, fails. The same report arrives three times, at 1000,
    1001 and 1002, with a window of 5: the second and the third are two
    successive identical reports within the window, and neither of them is
    published; only the very first one is. *)
Lemma C6_second_of_three_is_not_published :
  let b1 := MQTTBridge.publish_power_report (fresh_bridge 5) 1000 1 42 (sample_report 5) in
  let b2 := MQTTBridge.publish_power_report b1 1001 1 42 (sample_report 5) in
  let b3 := MQTTBridge.publish_power_report b2 1002 1 42 (sample_report 5) in
  (1002 - 1001 <? 5)%float = true /\
  MQTTBridge.published b1
  = [MQTTBridge.publication_of (fresh_bridge 5) 1000 1 42 (sample_report 5)] /\
  MQTTBridge.published b2 = MQTTBridge.published b1 /\
  MQTTBridge.published b3 = MQTTBridge.published b2.
Proof. vm_compute. repeat split; reflexivity. Qed.

(** C6, amended. With a window above zero, when a report is followed within
    the window by a report for the same key with the same slot, voltage,
    current and temperature, the second is suppressed; the first is
    published exactly when the gate's own test lets it pass, which it does
    whenever nothing is recorded for the key; and after each of the two
    calls the recorded state of the key is the sample of that call, time
    stamp included. *)
Theorem C6_repeat_within_window_is_suppressed (bridge : MQTTBridge.t)
    (t1 t2 : float) (gw node : Z) (r1 r2 : PowerReport) :
  MQTTBridge.mqtt_client bridge = true ->
  (0 <? MQTTBridge.dedup_window bridge)%float = true ->
  slot r2 = slot r1 ->
  voltage_in r2 = voltage_in r1 ->
  current r2 = current r1 ->
  temperature r2 = temperature r1 ->
  is_finite (voltage_in r1) = true ->
  is_finite (current r1) = true ->
  is_finite (temperature r1) = true ->
  (t2 - t1 <? MQTTBridge.dedup_window bridge)%float = true ->
  let b1 := MQTTBridge.publish_power_report bridge t1 gw node r1 in
  let b2 := MQTTBridge.publish_power_report b1 t2 gw node r2 in
  MQTTBridge.published b2 = MQTTBridge.published b1
  /\ MQTTBridge.published b1
     = (if MQTTBridge.should_publish bridge t1 (gw, node) r1
        then MQTTBridge.published bridge ++ [MQTTBridge.publication_of bridge t1 gw node r1]
        else MQTTBridge.published bridge)
  /\ (MQTTBridge.last_reports bridge !! (gw, node) = None ->
      MQTTBridge.published b2
      = MQTTBridge.published bridge ++ [MQTTBridge.publication_of bridge t1 gw node r1])
  /\ MQTTBridge.last_reports b1 !! (gw, node)
     = Some (t1, slot r1,
             {| MQTTBridge.vin := voltage_in r1; MQTTBridge.cur := current r1;
                MQTTBridge.temp := temperature r1 |})
  /\ MQTTBridge.last_reports b2 !! (gw, node)
     = Some (t2, slot r2,
             {| MQTTBridge.vin := voltage_in r2; MQTTBridge.cur := current r2;
                MQTTBridge.temp := temperature r2 |}).
Proof.
  intros Hc Hw Hs Hv Hi Ht Fv Fi Ft Hwin. cbv zeta.
  pose proof (positive_not_leb_zero _ Hw) as Hw0.
  destruct (publish_power_report_records bridge t1 gw node r1 Hc Hw0)
    as (Hl1 & Hc1 & Hw1 & _).
  set (b1 := MQTTBridge.publish_power_report bridge t1 gw node r1) in *.
  assert (Hw10 : (MQTTBridge.dedup_window b1 <=? 0)%float = false)
    by (rewrite Hw1; exact Hw0).
  destruct (publish_power_report_records b1 t2 gw node r2 Hc1 Hw10)
    as (Hl2 & _).
  assert (Hb1 : MQTTBridge.published b1
     = (if MQTTBridge.should_publish bridge t1 (gw, node) r1
        then MQTTBridge.published bridge ++ [MQTTBridge.publication_of bridge t1 gw node r1]
        else MQTTBridge.published bridge)).
  { unfold b1. rewrite publish_power_report_enabled by assumption.
    destruct (MQTTBridge.should_publish bridge t1 (gw, node) r1); reflexivity. }
  assert (Hb2 : MQTTBridge.published
                  (MQTTBridge.publish_power_report b1 t2 gw node r2)
                = MQTTBridge.published b1).
  { rewrite publish_power_report_enabled by assumption.
    rewrite should_publish_repeat with (last_time := t1);
      rewrite ?Hs, ?Hv, ?Hi, ?Ht, ?Hw1; try assumption.
    reflexivity. }
  split; [exact Hb2|]. split; [exact Hb1|]. split; [|split; assumption].
  intros Hnone. rewrite Hb2, Hb1.
  unfold MQTTBridge.should_publish. rewrite Hnone. reflexivity.
Qed.

Lemma C6_repeat_within_window_is_suppressed_witness :
  let b1 := MQTTBridge.publish_power_report (fresh_bridge 5) 1000 1 42 (sample_report 5) in
  let b2 := MQTTBridge.publish_power_report b1 1001 1 42 (sample_report 5) in
  MQTTBridge.published b2 = MQTTBridge.published b1.
Proof.
  apply (C6_repeat_within_window_is_suppressed (fresh_bridge 5) 1000 1001 1 42
           (sample_report 5) (sample_report 5));
    reflexivity.
Defined.

(** ** Facts about the receive-response walk *)

Section WalkFacts.
Import MQTTBridgeSink.

(** A pass that reaches the bottom of the loop body has moved on by seven
    bytes or more and has stayed inside the payload. *)
Lemma walk_step_progress (payload : list byte) (offset offset' : nat) (p : packet) :
  walk_step payload offset = Continue offset' p ->
  (offset + 7 <= offset' <= length payload)%nat.
Proof.
  unfold walk_step.
  destruct (payload !! offset); [|discriminate].
  destruct (length payload <? offset + 1 + 2)%nat; [discriminate|].
  destruct (payload !! (offset + 1 + 2 + 3)%nat) as [dl|]; [|discriminate].
  destruct (length payload <? offset + 1 + 2 + 3 + 1 + Z.to_nat (b2z dl))%nat eqn:E;
    [discriminate|].
  apply Nat.ltb_ge in E. intros [= <- _]. lia.
Qed.

(** The loop, one pass unfolded. *)
Lemma walk_body (payload : list byte) (offset : nat) :
  walk payload offset =
  if (offset + 6 <=? length payload)%nat then
    match walk_step payload offset with
    | Continue offset' p =>
        let r := walk payload offset' in
        {| packets := p :: packets r;
           iterations := S (iterations r);
           exit_kind := exit_kind r |}
    | Break => {| packets := []; iterations := 1; exit_kind := BreakOut |}
    | Raise => {| packets := []; iterations := 1; exit_kind := IndexError |}
    end
  else {| packets := []; iterations := 0; exit_kind := LoopEnd |}.
Proof.
  funelim (walk payload offset);
    match goal with E : (_ <=? _)%nat = _ |- _ => rewrite E end;
    try match goal with E : walk_step _ _ = _ |- _ => rewrite E end;
    reflexivity.
Qed.

(** Each pass through the loop body needs six bytes in front of it, and a
    pass that reaches the bottom of the body moves on by seven or more. *)
Lemma walk_iterations (payload : list byte) (offset : nat) :
  (7 * iterations (walk payload offset) + offset <= Nat.max offset (length payload + 1))%nat.
Proof.
  remember (length payload - offset)%nat as n eqn:Hn. revert offset Hn.
  induction n as [n IH] using lt_wf_ind. intros offset Hn.
  rewrite walk_body.
  destruct (offset + 6 <=? length payload)%nat eqn:Hguard.
  2: { cbn [iterations]. lia. }
  apply Nat.leb_le in Hguard.
  destruct (walk_step payload offset) as [offset' p| |] eqn:Hstep.
  - apply walk_step_progress in Hstep.
    cbn zeta. cbn [iterations].
    specialize (IH (length payload - offset')%nat ltac:(lia) offset' eq_refl).
    lia.
  - cbn [iterations]. lia.
  - cbn [iterations]. lia.
Qed.

Lemma handle_receive_response_iterations (payload : list byte) :
  (7 * iterations (_handle_receive_response (Some payload)) <= length payload)%nat.
Proof.
  unfold _handle_receive_response.
  destruct (length payload <? 3)%nat; [cbn; lia|].
  destruct (status_skip (slice 0 2 payload)) as [skip|]; [|cbn; lia].
  pose proof (walk_iterations payload (2 + skip + 3)). lia.
Qed.

End WalkFacts.

(** C10. The walk over a receive-response payload is a total function, so
    it ends on every payload; a pass through the loop body that does not
    leave the loop moves the offset forward by 7 plus the data length and
    stays inside the payload; and the number of passes is at most a
    seventh of the payload length. *)
Theorem C10_walk_terminates_within_a_seventh :
  (forall payload offset offset' p,
      MQTTBridgeSink.walk_step payload offset = MQTTBridgeSink.Continue offset' p ->
      (offset' = offset + 7 + length (MQTTBridgeSink.packet_data p)
       /\ offset + 7 <= offset' <= length payload)%nat)
  /\ (forall payload,
        (MQTTBridgeSink.iterations
           (MQTTBridgeSink._handle_receive_response (Some payload))
         <= length payload / 7)%nat)
  /\ MQTTBridgeSink.iterations (MQTTBridgeSink._handle_receive_response None) = 0%nat.
Proof.
  split; [|split].
  - intros payload offset offset' p H.
    split; [|apply (walk_step_progress _ _ _ _ H)].
    pose proof (walk_step_progress _ _ _ _ H) as Hp.
    unfold MQTTBridgeSink.walk_step in H.
    destruct (payload !! offset); [|discriminate].
    destruct (length payload <? offset + 1 + 2)%nat; [discriminate|].
    destruct (payload !! (offset + 1 + 2 + 3)%nat) as [dl|]; [|discriminate].
    destruct (length payload <? offset + 1 + 2 + 3 + 1 + Z.to_nat (b2z dl))%nat eqn:E;
      [discriminate|].
    apply Nat.ltb_ge in E. injection H as <- <-.
    cbn [MQTTBridgeSink.packet_data]. unfold slice.
    rewrite length_take, length_drop. lia.
  - intros payload. apply Nat.div_le_lower_bound; [lia|].
    apply handle_receive_response_iterations.
  - reflexivity.
Qed.

Example s3_walk :
  MQTTBridgeSink._handle_receive_response (Some s3_payload)
  = {| MQTTBridgeSink.packets := [s3_packet];
       MQTTBridgeSink.iterations := 1;
       MQTTBridgeSink.exit_kind := MQTTBridgeSink.LoopEnd |}.
Proof. vm_compute. reflexivity. Qed.

(** Six bytes left for the header and none for the length byte: the read
    of the data length is out of range. *)
Example walk_index_error :
  MQTTBridgeSink._handle_receive_response
    (Some [x00; xff; x00; x00; x00; x31; x00; x2a; x00; x00; x00])
  = {| MQTTBridgeSink.packets := [];
       MQTTBridgeSink.iterations := 1;
       MQTTBridgeSink.exit_kind := MQTTBridgeSink.IndexError |}.
Proof. vm_compute. reflexivity. Qed.

Example s3_report :
  MQTTBridgeSink.power_report_of 42 s3_data
  = Some {| node_id := 42; voltage_in := 100; voltage_out := 0; current := 8;
            duty_cycle := 100; temperature := 0; rssi := Some 123;
            slot := Some 5 |}.
Proof. vm_compute. reflexivity. Qed.

Lemma C10_walk_terminates_within_a_seventh_witness :
  (25 = 5 + 7 + length (MQTTBridgeSink.packet_data s3_packet)
   /\ 5 + 7 <= 25 <= length s3_payload)%nat.
Proof.
  apply (proj1 C10_walk_terminates_within_a_seventh s3_payload 5%nat 25%nat s3_packet).
  vm_compute. reflexivity.
Defined.

(** ** Facts about the power-report handler *)

Section PowerReportFacts.
Import MQTTBridgeSink.

Lemma lookup_byte_at (data : list byte) (i : nat) :
  (i < length data)%nat -> data !! i = Some (nth i data x00).
Proof.
  intros H. destruct (nth_lookup_or_length data i x00) as [E|E]; [exact E | lia].
Qed.

Lemma slice_10_12 (data : list byte) :
  (12 <= length data)%nat ->
  from_bytes_big (slice 10 12 data) = 256 * byte_at data 10 + byte_at data 11.
Proof.
  intros H. do 12 (destruct data as [|? data]; [simpl in H; lia|]).
  unfold slice, from_bytes_big, byte_at.
  cbn [firstn skipn fold_left nth Nat.sub]. rewrite take_0.
  cbn [fold_left]. lia.
Qed.

(** The report the handler builds from twelve bytes or more, field by
    field in terms of the bytes of [data]. *)
Lemma power_report_of_long (node : Z) (data : list byte) :
  (12 <= length data)%nat ->
  power_report_of node data =
  Some {| node_id := node;
          voltage_in :=
            (int_to_float (Z.lor (Z.shiftl (byte_at data 0) 4)
                                 (Z.shiftr (Z.land (byte_at data 1) 0xF0) 4))
             * 0.05)%float;
          voltage_out :=
            (int_to_float (Z.lor (Z.shiftl (Z.land (byte_at data 1) 0x0F) 8)
                                 (byte_at data 2))
             * 0.10)%float;
          current :=
            (int_to_float (Z.lor (Z.shiftl (byte_at data 4) 4)
                                 (Z.shiftr (Z.land (byte_at data 5) 0xF0) 4))
             * 0.005)%float;
          duty_cycle := (int_to_float (byte_at data 3) / 255.0 * 100.0)%float;
          temperature :=
            (int_to_float (Z.lor (Z.shiftl (Z.land (byte_at data 5) 0x0F) 8)
                                 (byte_at data 6))
             * 0.1)%float;
          rssi := if (13 <=? length data)%nat then Some (byte_at data 12) else None;
          slot := Some (256 * byte_at data 10 + byte_at data 11) |}.
Proof.
  intros H. unfold power_report_of.
  rewrite (lookup_byte_at data 0), (lookup_byte_at data 1),
    (lookup_byte_at data 2), (lookup_byte_at data 3), (lookup_byte_at data 4),
    (lookup_byte_at data 5), (lookup_byte_at data 6) by lia.
  cbn [mbind option_bind].
  destruct (12 <=? length data)%nat eqn:E12; [|apply Nat.leb_gt in E12; lia].
  rewrite slice_10_12 by exact H.
  destruct (13 <=? length data)%nat eqn:E13.
  - apply Nat.leb_le in E13. rewrite lookup_byte_at by lia. reflexivity.
  - reflexivity.
Qed.

End PowerReportFacts.

(** C8. From twelve bytes of data or more the handler builds one report and
    hands it to the publish step: the input voltage is the 12-bit value
    [(data[0] << 4) | ((data[1] & 0xF0) >> 4)] times 0.05, the current the
    12-bit value [(data[4] << 4) | ((data[5] & 0xF0) >> 4)] times 0.005,
    the slot the big-endian 16-bit value of bytes 10 and 11, and the RSSI
    byte 12 when there are thirteen bytes, absent when there are twelve.
    From fewer than twelve bytes the handler returns without building or
    handing on anything. *)
Theorem C8_power_report_decoding (bridge : MQTTBridge.t) (now : float)
    (node : Z) (data : list byte) (gw : Z) :
  ((12 <= length data)%nat ->
   exists report,
     MQTTBridgeSink.power_report_of node data = Some report
     /\ MQTTBridgeSink._handle_power_report bridge now node data gw
        = MQTTBridge.publish_power_report bridge now gw node report
     /\ voltage_in report
        = (int_to_float (Z.lor (Z.shiftl (byte_at data 0) 4)
                               (Z.shiftr (Z.land (byte_at data 1) 0xF0) 4))
           * 0.05)%float
     /\ current report
        = (int_to_float (Z.lor (Z.shiftl (byte_at data 4) 4)
                               (Z.shiftr (Z.land (byte_at data 5) 0xF0) 4))
           * 0.005)%float
     /\ slot report = Some (256 * byte_at data 10 + byte_at data 11)
     /\ ((13 <= length data)%nat -> rssi report = Some (byte_at data 12))
     /\ (length data = 12%nat -> rssi report = None))
  /\
  ((length data < 12)%nat ->
   MQTTBridgeSink._handle_power_report bridge now node data gw = bridge).
Proof.
  split.
  - intros H. eexists. split; [apply power_report_of_long, H|].
    split.
    + unfold MQTTBridgeSink._handle_power_report.
      destruct (length data <? 12)%nat eqn:E; [apply Nat.ltb_lt in E; lia|].
      rewrite power_report_of_long by exact H. reflexivity.
    + cbn [voltage_in current slot rssi].
      split; [reflexivity|]. split; [reflexivity|]. split; [reflexivity|].
      split; intros Hlen.
      * destruct (13 <=? length data)%nat eqn:E; [reflexivity|].
        apply Nat.leb_gt in E. lia.
      * rewrite Hlen. reflexivity.
  - intros H. unfold MQTTBridgeSink._handle_power_report.
    destruct (length data <? 12)%nat eqn:E; [reflexivity|].
    apply Nat.ltb_ge in E. lia.
Qed.

Lemma C8_power_report_decoding_witness :
  (exists report,
     MQTTBridgeSink.power_report_of 42 s3_data = Some report
     /\ MQTTBridgeSink._handle_power_report (fresh_bridge 5) 1000 42 s3_data 1
        = MQTTBridge.publish_power_report (fresh_bridge 5) 1000 1 42 report
     /\ voltage_in report
        = (int_to_float (Z.lor (Z.shiftl (byte_at s3_data 0) 4)
                               (Z.shiftr (Z.land (byte_at s3_data 1) 0xF0) 4))
           * 0.05)%float
     /\ current report
        = (int_to_float (Z.lor (Z.shiftl (byte_at s3_data 4) 4)
                               (Z.shiftr (Z.land (byte_at s3_data 5) 0xF0) 4))
           * 0.005)%float
     /\ slot report = Some (256 * byte_at s3_data 10 + byte_at s3_data 11)
     /\ ((13 <= length s3_data)%nat -> rssi report = Some (byte_at s3_data 12))
     /\ (length s3_data = 12%nat -> rssi report = None))
  /\
  MQTTBridgeSink._handle_power_report (fresh_bridge 5) 1000 42 (take 11 s3_data) 1
  = fresh_bridge 5.
Proof.
  split.
  - apply (proj1 (C8_power_report_decoding (fresh_bridge 5) 1000 42 s3_data 1)).
    simpl. lia.
  - apply (proj2 (C8_power_report_decoding (fresh_bridge 5) 1000 42
                    (take 11 s3_data) 1)).
    simpl. lia.
Defined.

(** * Further properties *)

(** ** Checksum *)

Section MoreCRCFacts.
Import CRC.

Lemma z2b_b2z (b : byte) : z2b (b2z b) = b.
Proof.
  unfold z2b, b2z. rewrite N2Z.id, Byte.of_to_N. reflexivity.
Qed.

Lemma b2z_inj (a b : byte) : b2z a = b2z b -> a = b.
Proof.
  intros H. rewrite <- (z2b_b2z a), <- (z2b_b2z b), H. reflexivity.
Qed.

Lemma crc_le_bytes (data : list byte) (lo hi : byte) :
  calculate_crc data = b2z lo + 256 * b2z hi -> crc_le data = [lo; hi].
Proof.
  intros H. unfold crc_le. rewrite H.
  pose proof (b2z_range lo) as Hlo. pose proof (b2z_range hi) as Hhi.
  change 255 with (Z.ones 8). rewrite Z.land_ones by lia.
  rewrite Z.shiftr_div_pow2 by lia. change (2 ^ 8) with 256.
  assert (Hr : (b2z lo + 256 * b2z hi) mod 256 = b2z lo).
  { symmetry. apply (Z.mod_unique _ 256 (b2z hi) (b2z lo)); lia. }
  assert (Hq : (b2z lo + 256 * b2z hi) / 256 = b2z hi).
  { symmetry. apply (Z.div_unique _ 256 (b2z hi) (b2z lo)); lia. }
  rewrite Hr, Hq, !z2b_b2z. reflexivity.
Qed.

(** Shifting out a zero bit does not involve the polynomial. *)
Lemma crc_bit_even (z : Z) : crc_bit (2 * z) = z.
Proof.
  unfold crc_bit. change 1 with (Z.ones 1) at 1.
  rewrite Z.land_ones by lia. change (2 ^ 1) with 2.
  rewrite Z.mul_comm, Z.mod_mul by lia. cbn [Z.eqb].
  rewrite Z.shiftr_div_pow2 by lia. change (2 ^ 1) with 2.
  apply Z.div_mul. lia.
Qed.

Lemma crc_bits_shift (n : nat) (z : Z) :
  Nat.iter n crc_bit (2 ^ Z.of_nat n * z) = z.
Proof.
  revert z. induction n as [|n IH]; intros z.
  - change (1 * z = z). lia.
  - rewrite Nat.iter_succ_r.
    replace (2 ^ Z.of_nat (S n) * z) with (2 * (2 ^ Z.of_nat n * z))
      by (rewrite Nat2Z.inj_succ, Z.pow_succ_r by lia; lia).
    rewrite crc_bit_even. apply IH.
Qed.

(** Feeding the low byte of the register into it leaves its high byte. *)
Lemma crc_byte_low (c : Z) :
  u16 c -> crc_byte c (z2b (Z.land c 0xFF)) = Z.shiftr c 8.
Proof.
  unfold u16. intros H. unfold crc_byte.
  rewrite lxor_low_byte. unfold xor_into_low_byte.
  change 255 with (Z.ones 8). rewrite Z.land_ones by lia.
  change (2 ^ 8) with 256.
  rewrite b2z_z2b by (apply Z.mod_pos_bound; lia).
  rewrite Z.lxor_nilpotent, Z.add_0_r.
  rewrite Z.shiftr_div_pow2 by lia. change (2 ^ 8) with 256.
  apply (crc_bits_shift 8).
Qed.

Lemma crc_byte_self (h : Z) : 0 <= h < 256 -> crc_byte h (z2b h) = 0.
Proof.
  intros H. unfold crc_byte. rewrite b2z_z2b by exact H.
  rewrite Z.lxor_nilpotent. reflexivity.
Qed.

End MoreCRCFacts.

(** X1. A two-byte checksum passes [verify_checksum] exactly when its
    bytes are the checksum of the data, low byte first. *)
Theorem verify_checksum_exact (data checksum : list byte) :
  length checksum = 2%nat ->
  (CRC.verify_checksum data checksum = true <-> checksum = CRC.crc_le data).
Proof.
  intros Hlen.
  destruct checksum as [|lo [|hi [|x rest]]]; try discriminate.
  unfold CRC.verify_checksum. rewrite Z.eqb_eq.
  cbn [from_bytes_little fold_right]. split.
  - intros H. symmetry. apply crc_le_bytes. lia.
  - intros H.
    pose proof (from_bytes_little_split _ (calculate_crc_u16 data)) as E.
    cbn [from_bytes_little fold_right] in E. unfold CRC.crc_le in H.
    injection H as -> ->. symmetry. exact E.
Qed.

Lemma verify_checksum_exact_witness :
  CRC.verify_checksum [x80; x00; x0b; x01] [x1a; x52] = true
  <-> [x1a; x52] = CRC.crc_le [x80; x00; x0b; x01].
Proof.
  apply (verify_checksum_exact [x80; x00; x0b; x01] [x1a; x52]). reflexivity.
Defined.

(** X2. Running the checksum over a body followed by its own stored
    checksum always leaves the register at zero. *)
Theorem crc_residue_zero (data : list byte) :
  CRC.calculate_crc (data ++ CRC.crc_le data) = 0.
Proof.
  unfold CRC.calculate_crc at 1. rewrite fold_left_app.
  fold (CRC.calculate_crc data). unfold CRC.crc_le.
  pose proof (calculate_crc_u16 data) as H.
  cbn [fold_left]. rewrite crc_byte_low by exact H.
  apply crc_byte_self. unfold u16 in H.
  rewrite Z.shiftr_div_pow2 by lia. change (2 ^ 8) with 256.
  split; [apply Z.div_pos; lia | apply Z.div_lt_upper_bound; lia].
Qed.

(** ** Frame receiver *)

Section MoreFrameReceiverFacts.
Import FrameReceiver.

Lemma deliver_checked (unescaped_data : list byte) :
  Forall checked_frame (deliver unescaped_data).
Proof.
  unfold deliver.
  destruct (4 <=? length unescaped_data)%nat eqn:E; [|constructor].
  destruct (CRC.verify_checksum _ _) eqn:V; [|constructor].
  constructor; [|constructor].
  apply Nat.leb_le in E. unfold checked_frame. cbn [frame_data Frame_init].
  auto.
Qed.

Lemma process_checked (buf : list byte) :
  Forall checked_frame (fst (process buf)).
Proof.
  remember (length buf) as n eqn:Hn. revert buf Hn.
  induction n as [n IH] using lt_wf_ind. intros buf Hn.
  rewrite process_body.
  destruct (find_marker FRAME_START buf) as [s|]; [|constructor].
  destruct (find_marker_from FRAME_END (s + 2) buf) as [e|] eqn:Ee; [|constructor].
  pose proof (find_marker_from_bound _ _ _ _ Ee) as Hb.
  cbn zeta. cbn [fst]. apply Forall_app. split; [apply deliver_checked|].
  apply (IH (length (drop (e + 2) buf))); [rewrite length_drop; lia | reflexivity].
Qed.

(** The first occurrence of a sentinel behind bytes that hold none. *)
Lemma find_marker_after (m2 : byte) (l tail : list byte) :
  Byte.eqb x7e m2 = false ->
  find_marker (x7e, m2) l = None ->
  find_marker (x7e, m2) (l ++ x7e :: m2 :: tail) = Some (length l).
Proof.
  intros Hm. induction l as [|a tl IH]; intros H.
  - cbn [app length]. rewrite find_marker_cons2. unfold pair_eqb. cbn [fst snd].
    rewrite (proj2 (byte_eqb_eq x7e x7e) eq_refl), (proj2 (byte_eqb_eq m2 m2) eq_refl).
    reflexivity.
  - destruct tl as [|b tl'].
    + cbn [app]. rewrite find_marker_cons2.
      destruct (pair_eqb (a, x7e) (x7e, m2)) eqn:E.
      * unfold pair_eqb in E. cbn [fst snd] in E.
        apply andb_true_iff in E as [_ E]. congruence.
      * change (x7e :: m2 :: tail) with ([] ++ x7e :: m2 :: tail).
        rewrite (IH eq_refl). reflexivity.
    + apply find_marker_none_cons2 in H as [Hp Hn].
      change ((a :: b :: tl') ++ x7e :: m2 :: tail)
        with (a :: b :: (tl' ++ x7e :: m2 :: tail)).
      rewrite find_marker_cons2, Hp.
      change (b :: tl' ++ x7e :: m2 :: tail) with ((b :: tl') ++ x7e :: m2 :: tail).
      rewrite (IH Hn). reflexivity.
Qed.

Lemma process_garbage_region (garbage region tail : list byte) :
  find_marker FRAME_START garbage = None ->
  find_marker FRAME_END region = None ->
  process (garbage ++ [x7e; x07] ++ region ++ [x7e; x08] ++ tail) =
  (deliver (unescape_frame region) ++ fst (process tail), snd (process tail)).
Proof.
  intros Hg Hr. rewrite process_body.
  change ([x7e; x07] ++ region ++ [x7e; x08] ++ tail)
    with (x7e :: x07 :: (region ++ [x7e; x08] ++ tail)).
  unfold FRAME_START in *.
  rewrite (find_marker_after x07 garbage _ eq_refl Hg).
  unfold find_marker_from.
  replace (drop (length garbage + 2)
             (garbage ++ x7e :: x07 :: region ++ [x7e; x08] ++ tail))
    with (region ++ [x7e; x08] ++ tail).
  2: { rewrite drop_app_add. reflexivity. }
  rewrite (find_end_after_region _ tail Hr). cbn [option_map]. cbn zeta.
  unfold slice.
  replace (drop (length garbage + 2)
             (garbage ++ x7e :: x07 :: region ++ [x7e; x08] ++ tail))
    with (region ++ [x7e; x08] ++ tail).
  2: { rewrite drop_app_add. reflexivity. }
  replace (length garbage + 2 + length region - (length garbage + 2))%nat
    with (length region) by lia.
  rewrite take_app_length.
  replace (drop (length garbage + 2 + length region + 2)
             (garbage ++ x7e :: x07 :: region ++ [x7e; x08] ++ tail))
    with tail; [reflexivity|].
  replace (length garbage + 2 + length region + 2)%nat
    with (length garbage + S (S (length region + 2)))%nat by lia.
  rewrite drop_app_add. cbn [drop]. rewrite drop_app_add. reflexivity.
Qed.

End MoreFrameReceiverFacts.

(** X3. Whatever the receiver holds and whatever bytes arrive, every frame
    handed to the sink is built from at least four unescaped bytes whose
    last two are a checksum that verifies the bytes before them. *)
Theorem sink_receives_only_checked_frames (r : FrameReceiver.t) (data : list byte) :
  Forall checked_frame (snd (FrameReceiver.extend_from_slice r data)).
Proof.
  unfold FrameReceiver.extend_from_slice. cbn [snd]. apply process_checked.
Qed.

(** X4. Bytes in front of the first start sentinel are skipped: with no
    start sentinel in the garbage and no end sentinel in the region, the
    region is unescaped and tested, and the loop goes on with the bytes
    after the end sentinel. *)
Theorem garbage_before_start_is_skipped (garbage region tail : list byte) :
  FrameReceiver.find_marker FrameReceiver.FRAME_START garbage = None ->
  FrameReceiver.find_marker FrameReceiver.FRAME_END region = None ->
  FrameReceiver.process (garbage ++ [x7e; x07] ++ region ++ [x7e; x08] ++ tail) =
  (FrameReceiver.deliver (FrameReceiver.unescape_frame region)
     ++ fst (FrameReceiver.process tail),
   snd (FrameReceiver.process tail)).
Proof.
  apply process_garbage_region.
Qed.

Lemma garbage_before_start_is_skipped_witness :
  FrameReceiver.process
    ([x00; x7e; x11] ++ [x7e; x07] ++ [x80; x00; x0b; x01; x1a; x52]
       ++ [x7e; x08] ++ [x7e])
  = (FrameReceiver.deliver
       (FrameReceiver.unescape_frame [x80; x00; x0b; x01; x1a; x52])
       ++ fst (FrameReceiver.process [x7e]),
     snd (FrameReceiver.process [x7e])).
Proof.
  apply (garbage_before_start_is_skipped [x00; x7e; x11]
           [x80; x00; x0b; x01; x1a; x52] [x7e]);
    reflexivity.
Defined.

(** C3, amended. In a stream made of bytes without start sentinel, a start
    sentinel, a region without end sentinel that holds a 7E starting no
    escape sequence, an end sentinel and any further bytes, fed in any
    chunks to a fresh receiver: the 7E is kept by the unescaper as a data
    byte, the bytes before and after it being unescaped as usual; and when
    the unescaped region is six bytes or more, a body of four or more and
    the checksum, the region is handed to the sink exactly when its last
    two bytes check the bytes before them, after which the loop goes on
    with the bytes behind the end sentinel. *)
Theorem C3_lone_7E_is_kept_as_data
    (chunks : list (list byte)) (garbage pre rest tail : list byte) :
  FrameReceiver.starts_escape rest = false ->
  FrameReceiver.find_marker FrameReceiver.FRAME_START garbage = None ->
  FrameReceiver.find_marker FrameReceiver.FRAME_END (pre ++ x7e :: rest) = None ->
  concat chunks = garbage ++ [x7e; x07] ++ (pre ++ x7e :: rest) ++ [x7e; x08] ++ tail ->
  let unescaped_data :=
    FrameReceiver.unescape_frame pre ++ x7e :: FrameReceiver.unescape_frame rest in
  (6 <= length unescaped_data)%nat ->
  FrameReceiver.unescape_frame (pre ++ x7e :: rest) = unescaped_data
  /\
  FrameReceiver.feed_all FrameReceiver.init chunks
  = ({| FrameReceiver.buffer := snd (FrameReceiver.process tail) |},
     (if CRC.verify_checksum
           (take (length unescaped_data - 2) unescaped_data)
           (drop (length unescaped_data - 2) unescaped_data)
      then [Frame_init unescaped_data]
      else [])
     ++ fst (FrameReceiver.process tail)).
Proof.
  intros Hlone Hg Hregion Hstream u Hlen.
  assert (Hun : FrameReceiver.unescape_frame (pre ++ x7e :: rest) = u).
  { rewrite unescape_app_7e. unfold u. f_equal. apply unescape_lone_7e, Hlone. }
  split; [exact Hun|].
  rewrite feed_all_concat by reflexivity.
  unfold FrameReceiver.extend_from_slice, FrameReceiver.init.
  cbn [FrameReceiver.buffer app]. rewrite Hstream.
  rewrite process_garbage_region by assumption.
  cbn [fst snd]. rewrite Hun. unfold FrameReceiver.deliver.
  destruct (4 <=? length u)%nat eqn:E; [|apply Nat.leb_gt in E; lia].
  reflexivity.
Qed.

Lemma C3_lone_7E_is_kept_as_data_witness :
  FrameReceiver.unescape_frame ([x80; x00; x01; x49] ++ x7e :: [x09; x79; xf2])
  = FrameReceiver.unescape_frame [x80; x00; x01; x49]
      ++ x7e :: FrameReceiver.unescape_frame [x09; x79; xf2]
  /\
  FrameReceiver.feed_all FrameReceiver.init
    [[x00; x7e]; [x07; x80; x00; x01; x49; x7e]; [x09; x79; xf2; x7e; x08; x11]]
  = ({| FrameReceiver.buffer := snd (FrameReceiver.process [x11]) |},
     (if CRC.verify_checksum
           (take (length (FrameReceiver.unescape_frame [x80; x00; x01; x49]
                            ++ x7e :: FrameReceiver.unescape_frame [x09; x79; xf2]) - 2)
              (FrameReceiver.unescape_frame [x80; x00; x01; x49]
                 ++ x7e :: FrameReceiver.unescape_frame [x09; x79; xf2]))
           (drop (length (FrameReceiver.unescape_frame [x80; x00; x01; x49]
                            ++ x7e :: FrameReceiver.unescape_frame [x09; x79; xf2]) - 2)
              (FrameReceiver.unescape_frame [x80; x00; x01; x49]
                 ++ x7e :: FrameReceiver.unescape_frame [x09; x79; xf2]))
      then [Frame_init (FrameReceiver.unescape_frame [x80; x00; x01; x49]
                          ++ x7e :: FrameReceiver.unescape_frame [x09; x79; xf2])]
      else [])
     ++ fst (FrameReceiver.process [x11])).
Proof.
  apply (C3_lone_7E_is_kept_as_data
           [[x00; x7e]; [x07; x80; x00; x01; x49; x7e]; [x09; x79; xf2; x7e; x08; x11]]
           [x00] [x80; x00; x01; x49] [x09; x79; xf2] [x11]).
  - reflexivity.
  - reflexivity.
  - reflexivity.
  - reflexivity.
  - simpl. lia.
Defined.

(** X5. A call leaves no complete frame behind: a following call that
    brings no bytes hands nothing to the sink and keeps the buffer. *)
Theorem idle_call_delivers_nothing (r : FrameReceiver.t) (data : list byte) :
  let r' := fst (FrameReceiver.extend_from_slice r data) in
  FrameReceiver.extend_from_slice r' [] = (r', []).
Proof.
  cbv zeta. unfold FrameReceiver.extend_from_slice. cbn [fst snd FrameReceiver.buffer].
  rewrite app_nil_r, process_idem. reflexivity.
Qed.

(** ** Escaping *)

Section EscapeFacts.
Import FrameReceiver.

(** What the table gives for a byte that has a key. *)
Lemma escape_key_some (b k1 k2 : byte) :
  escape_key ESCAPE_MAP b = Some (k1, k2) ->
  k1 = x7e
  /\ escape_lookup ESCAPE_MAP (x7e, k2) = Some b
  /\ Byte.eqb k2 x7e = false.
Proof.
  unfold ESCAPE_MAP. cbn [escape_key].
  repeat match goal with
         | |- context [Byte.eqb ?v b] =>
             destruct (Byte.eqb v b) eqn:?;
             [ match goal with
               | E : Byte.eqb _ b = true |- _ => apply byte_eqb_eq in E; subst b
               end;
               intros [= <- <-]; repeat split; reflexivity
             | ]
         end.
  discriminate.
Qed.

Lemma escape_key_none (b : byte) :
  escape_key ESCAPE_MAP b = None -> Byte.eqb b x7e = false.
Proof.
  unfold ESCAPE_MAP. cbn [escape_key].
  destruct (Byte.eqb x7e b) eqn:E; [discriminate|]. intros _.
  destruct (Byte.eqb b x7e) eqn:E'; [|reflexivity].
  apply byte_eqb_eq in E'. subst b. discriminate.
Qed.

Lemma unescape_escape_byte (b : byte) (w : list byte) :
  unescape_frame (escape_byte b ++ w) = b :: unescape_frame w.
Proof.
  unfold escape_byte.
  destruct (escape_key ESCAPE_MAP b) as [[k1 k2]|] eqn:E.
  - apply escape_key_some in E as (-> & Hl & _).
    cbn [app]. rewrite unescape_cons2, Hl. reflexivity.
  - apply escape_key_none in E. cbn [app].
    destruct w as [|d1 rest]; [reflexivity|].
    rewrite unescape_cons2, E. reflexivity.
Qed.

Lemma unescape_escape_frame (data : list byte) :
  unescape_frame (escape_frame data) = data.
Proof.
  induction data as [|b data IH]; [reflexivity|].
  unfold escape_frame in *. cbn [map concat].
  rewrite unescape_escape_byte, IH. reflexivity.
Qed.

Lemma find_marker_cons_ne (m : byte * byte) (a : byte) (l : list byte) :
  Byte.eqb a (fst m) = false ->
  find_marker m l = None -> find_marker m (a :: l) = None.
Proof.
  intros Ha Hl. destruct l as [|b l']; [reflexivity|].
  rewrite find_marker_cons2. unfold pair_eqb. cbn [fst snd].
  rewrite Ha, Hl. reflexivity.
Qed.

(** An escaped stream holds no 7E followed by a byte that is not the
    second byte of an escape sequence; in particular no sentinel. *)
Lemma escape_frame_no_marker (m2 : byte) (data : list byte) :
  Byte.eqb x7e m2 = false ->
  escape_lookup ESCAPE_MAP (x7e, m2) = None ->
  find_marker (x7e, m2) (escape_frame data) = None.
Proof.
  intros H7 Hm. induction data as [|b data IH]; [reflexivity|].
  unfold escape_frame in *. cbn [map concat]. unfold escape_byte.
  destruct (escape_key ESCAPE_MAP b) as [[k1 k2]|] eqn:E.
  - apply escape_key_some in E as (-> & Hl & Hk).
    cbn [app]. rewrite find_marker_cons2. unfold pair_eqb. cbn [fst snd].
    destruct (Byte.eqb k2 m2) eqn:Ek.
    + apply byte_eqb_eq in Ek. subst k2. congruence.
    + rewrite andb_false_r.
      rewrite find_marker_cons_ne; [reflexivity | exact Hk | exact IH].
  - apply escape_key_none in E. cbn [app].
    apply find_marker_cons_ne; [exact E | exact IH].
Qed.

Lemma unescape_length (data : list byte) :
  (length (unescape_frame data) <= length data)%nat.
Proof.
  remember (length data) as n eqn:Hn. revert data Hn.
  induction n as [n IH] using lt_wf_ind. intros data Hn.
  destruct data as [|d [|d1 rest]]; [simpl; lia | simpl in *; lia |].
  rewrite unescape_cons2.
  pose proof (IH (length (d1 :: rest)) ltac:(subst n; simpl; lia) (d1 :: rest) eq_refl) as H1.
  pose proof (IH (length rest) ltac:(subst n; simpl; lia) rest eq_refl) as H2.
  destruct (Byte.eqb d x7e); [destruct (escape_lookup ESCAPE_MAP (d, d1))|];
    subst n; cbn [length] in *; lia.
Qed.

Lemma unescape_plain (data : list byte) :
  forallb (fun b => negb (Byte.eqb b x7e)) data = true ->
  unescape_frame data = data.
Proof.
  induction data as [|d rest IH]; [reflexivity|].
  cbn [forallb]. intros H. apply andb_true_iff in H as [Hd Hrest].
  apply negb_true_iff in Hd.
  destruct rest as [|d1 rest']; [reflexivity|].
  rewrite unescape_cons2, Hd, (IH Hrest). reflexivity.
Qed.

End EscapeFacts.

(** X6. Unescaping undoes escaping: replacing each byte that the escape
    table produces by its two-byte key and unescaping the result gives the
    bytes back, whatever they are. *)
Theorem unescape_undoes_escape (data : list byte) :
  FrameReceiver.unescape_frame (escape_frame data) = data.
Proof.
  apply unescape_escape_frame.
Qed.

(** X7. A well-formed frame always reaches the sink: any body of two bytes
    or more, followed by its checksum, escaped and put between the
    sentinels, is handed to the sink with its bytes restored, whatever
    garbage without start sentinel precedes it and whatever follows. *)
Theorem escaped_frame_is_delivered (garbage body tail : list byte) :
  FrameReceiver.find_marker FrameReceiver.FRAME_START garbage = None ->
  (2 <= length body)%nat ->
  FrameReceiver.process
    (garbage ++ [x7e; x07] ++ escape_frame (body ++ CRC.crc_le body)
       ++ [x7e; x08] ++ tail)
  = (Frame_init (body ++ CRC.crc_le body) :: fst (FrameReceiver.process tail),
     snd (FrameReceiver.process tail)).
Proof.
  intros Hg Hlen.
  rewrite process_garbage_region;
    [| exact Hg | apply (escape_frame_no_marker x08); reflexivity].
  rewrite unescape_escape_frame, deliver_body_with_crc by exact Hlen.
  reflexivity.
Qed.

Lemma escaped_frame_is_delivered_witness :
  FrameReceiver.process
    ([x00; x7e] ++ [x7e; x07]
       ++ escape_frame ([x80; x7e; x23; x01] ++ CRC.crc_le [x80; x7e; x23; x01])
       ++ [x7e; x08] ++ [x11])
  = (Frame_init ([x80; x7e; x23; x01] ++ CRC.crc_le [x80; x7e; x23; x01])
       :: fst (FrameReceiver.process [x11]),
     snd (FrameReceiver.process [x11])).
Proof.
  apply (escaped_frame_is_delivered [x00; x7e] [x80; x7e; x23; x01] [x11]).
  - reflexivity.
  - simpl. lia.
Defined.

(** X8. Unescaping never lengthens the data, and leaves data that holds no
    7E as it is. *)
Theorem unescape_shrinks_and_keeps_plain (data : list byte) :
  (length (FrameReceiver.unescape_frame data) <= length data)%nat
  /\ (forallb (fun b => negb (Byte.eqb b x7e)) data = true ->
      FrameReceiver.unescape_frame data = data).
Proof.
  split; [apply unescape_length | apply unescape_plain].
Qed.

Lemma unescape_shrinks_and_keeps_plain_witness :
  FrameReceiver.unescape_frame [x80; x00; x23; x07] = [x80; x00; x23; x07].
Proof.
  apply (proj2 (unescape_shrinks_and_keeps_plain [x80; x00; x23; x07])).
  reflexivity.
Defined.

(** ** Frame *)

Section FrameFacts.

Lemma from_bytes_big_2 (data : list byte) :
  from_bytes_big (slice 0 2 data)
  = match data with
    | [] => 0
    | [d0] => b2z d0
    | d0 :: d1 :: _ => 256 * b2z d0 + b2z d1
    end.
Proof.
  destruct data as [|d0 [|d1 rest]]; unfold slice, from_bytes_big;
    cbn [drop firstn skipn Nat.sub fold_left]; try rewrite take_0;
    cbn [fold_left]; lia.
Qed.

Lemma address_u16 (data : list byte) : u16 (address (Frame_init data)).
Proof.
  unfold u16. cbn [address Frame_init]. rewrite from_bytes_big_2.
  destruct data as [|d0 [|d1 rest]]; [lia | pose proof (b2z_range d0); lia |].
  pose proof (b2z_range d0). pose proof (b2z_range d1). lia.
Qed.

(** The two masks cut a 16-bit value into its low 15 bits and bit 15. *)
Lemma mask_split (a : Z) :
  u16 a -> a = Z.land a 0x7FFF + Z.land a 0x8000.
Proof.
  unfold u16. intros H.
  assert (Hd : Z.land (Z.land a 0x7FFF) (Z.land a 0x8000) = 0).
  { apply Z.bits_inj'. intros n _. rewrite !Z.land_spec, Z.bits_0.
    assert (Hm : Z.land 0x7FFF 0x8000 = 0) by reflexivity.
    apply (f_equal (fun z => Z.testbit z n)) in Hm.
    rewrite Z.land_spec, Z.bits_0 in Hm.
    destruct (Z.testbit a n), (Z.testbit 32767 n), (Z.testbit 32768 n);
      cbn in *; congruence. }
  rewrite (Z.add_nocarry_lxor _ _ Hd), (Z.lxor_lor _ _ Hd).
  rewrite <- Z.land_lor_distr_r.
  change (Z.lor 32767 32768) with (Z.ones 16).
  rewrite Z.land_ones by lia. symmetry. apply Z.mod_small.
  change (2 ^ 16) with 65536. lia.
Qed.

Lemma land_bit15 (a : Z) :
  u16 a -> Z.land a 0x8000 = if (32768 <=? a) then 32768 else 0.
Proof.
  intros H. pose proof (mask_split a H) as Hs. unfold u16 in H.
  change 32767 with (Z.ones 15) in Hs. rewrite Z.land_ones in Hs by lia.
  change (2 ^ 15) with 32768 in Hs.
  pose proof (Z.mod_pos_bound a 32768 ltac:(lia)) as Hm.
  pose proof (Z.div_mod a 32768 ltac:(lia)) as Hdm.
  assert (Hq : 0 <= a / 32768 < 2).
  { split; [apply Z.div_pos; lia | apply Z.div_lt_upper_bound; lia]. }
  destruct (32768 <=? a) eqn:E; [apply Z.leb_le in E | apply Z.leb_gt in E]; lia.
Qed.

Lemma is_from_gateway_high_bit (data : list byte) :
  is_from_gateway (Frame_init data)
  = (2 <=? length data)%nat && (128 <=? byte_at data 0).
Proof.
  pose proof (land_bit15 _ (address_u16 data)) as Hb.
  cbn [is_from_gateway address Frame_init] in *. rewrite Hb.
  rewrite from_bytes_big_2. unfold byte_at.
  destruct data as [|d0 [|d1 rest]]; cbn [length nth Nat.leb andb].
  - reflexivity.
  - pose proof (b2z_range d0).
    destruct (32768 <=? b2z d0) eqn:E; [apply Z.leb_le in E; lia | reflexivity].
  - pose proof (b2z_range d0). pose proof (b2z_range d1).
    destruct (32768 <=? 256 * b2z d0 + b2z d1) eqn:E;
      destruct (128 <=? b2z d0) eqn:E'; try reflexivity;
      [apply Z.leb_le in E; apply Z.leb_gt in E'
      |apply Z.leb_gt in E; apply Z.leb_le in E']; lia.
Qed.

End FrameFacts.

(** X9. The address of a frame is a 16-bit value that splits into the
    gateway id, below 0x8000, and the direction flag: it is the gateway id
    plus 0x8000 exactly when the frame comes from the gateway. *)
Theorem frame_address_split (data : list byte) :
  let f := Frame_init data in
  0 <= gateway_id f < 32768
  /\ address f = gateway_id f + (if is_from_gateway f then 32768 else 0)
  /\ is_from_gateway f = (32768 <=? address f).
Proof.
  cbv zeta. pose proof (address_u16 data) as Hu.
  pose proof (mask_split _ Hu) as Hs. pose proof (land_bit15 _ Hu) as Hb.
  cbn [gateway_id is_from_gateway Frame_init] in *.
  set (a := from_bytes_big (slice 0 2 data)) in *.
  change (address (Frame_init data)) with a in *.
  rewrite Hb.
  assert (Hg : 0 <= Z.land a 32767 < 32768).
  { change 32767 with (Z.ones 15). rewrite Z.land_ones by lia.
    apply Z.mod_pos_bound. lia. }
  split; [exact Hg|].
  destruct (32768 <=? a) eqn:E; cbn [Z.eqb negb]; split; try reflexivity; lia.
Qed.

(** X10. The fields of a frame of six bytes or more cut its data into
    address, type, payload and checksum, in this order and without
    overlap: two bytes, two bytes, all but the last two of the rest, and
    the last two. *)
Theorem frame_fields_partition (data : list byte) :
  (6 <= length data)%nat ->
  exists ty pl cs,
    type (Frame_init data) = Some ty
    /\ payload (Frame_init data) = Some pl
    /\ checksum (Frame_init data) = Some cs
    /\ data = take 2 data ++ ty ++ pl ++ cs
    /\ length ty = 2%nat /\ length pl = (length data - 6)%nat
    /\ length cs = 2%nat
    /\ address (Frame_init data) = 256 * byte_at data 0 + byte_at data 1.
Proof.
  intros H. cbn [type payload checksum address Frame_init].
  destruct (4 <=? length data)%nat eqn:E4; [|apply Nat.leb_gt in E4; lia].
  destruct (6 <=? length data)%nat eqn:E6; [|apply Nat.leb_gt in E6; lia].
  destruct (2 <=? length data)%nat eqn:E2; [|apply Nat.leb_gt in E2; lia].
  do 3 eexists. split; [reflexivity|]. split; [reflexivity|].
  split; [reflexivity|]. unfold slice.
  split; [|repeat split].
  - replace (drop (length data - 2) data)
      with (drop (length data - 6) (drop 4 data))
      by (rewrite drop_drop; f_equal; lia).
    replace (length data - 2 - 4)%nat with (length data - 6)%nat by lia.
    rewrite take_drop.
    replace (drop 4 data) with (drop 2 (drop 2 data)) by (rewrite drop_drop; reflexivity).
    replace (4 - 2)%nat with 2%nat by lia.
    rewrite take_drop, take_drop. reflexivity.
  - rewrite length_take, length_drop. lia.
  - rewrite length_take, length_drop. lia.
  - rewrite length_drop. lia.
  - fold (slice 0 2 data). rewrite from_bytes_big_2. unfold byte_at.
    destruct data as [|d0 [|d1 rest]]; simpl in H; try lia. reflexivity.
Qed.

Lemma frame_fields_partition_witness :
  exists ty pl cs,
    type (Frame_init [x80; x01; x01; x49; x00; xff; x1a; x52]) = Some ty
    /\ payload (Frame_init [x80; x01; x01; x49; x00; xff; x1a; x52]) = Some pl
    /\ checksum (Frame_init [x80; x01; x01; x49; x00; xff; x1a; x52]) = Some cs
    /\ [x80; x01; x01; x49; x00; xff; x1a; x52]
       = take 2 [x80; x01; x01; x49; x00; xff; x1a; x52] ++ ty ++ pl ++ cs
    /\ length ty = 2%nat
    /\ length pl = (length [x80; x01; x01; x49; x00; xff; x1a; x52] - 6)%nat
    /\ length cs = 2%nat
    /\ address (Frame_init [x80; x01; x01; x49; x00; xff; x1a; x52])
       = 256 * byte_at [x80; x01; x01; x49; x00; xff; x1a; x52] 0
         + byte_at [x80; x01; x01; x49; x00; xff; x1a; x52] 1.
Proof.
  apply (frame_fields_partition [x80; x01; x01; x49; x00; xff; x1a; x52]).
  simpl. lia.
Defined.

(** X11. The sink walks exactly the frames of six bytes or more whose first
    byte has its high bit set and whose bytes 2 and 3 are 01 49; it then
    walks bytes 4 up to the last two. Every other frame is ignored. *)
Theorem sink_walks_only_receive_responses (data : list byte) :
  MQTTBridgeSink.frame (Frame_init data)
  = if (6 <=? length data)%nat && (128 <=? byte_at data 0)
       && bytes_eqb (slice 2 4 data) MQTTBridgeSink.RECEIVE_RESPONSE
    then MQTTBridgeSink._handle_receive_response
           (Some (slice 4 (length data - 2) data))
    else MQTTBridgeSink.no_walk.
Proof.
  unfold MQTTBridgeSink.frame. rewrite is_from_gateway_high_bit.
  cbn [type payload Frame_init].
  destruct (6 <=? length data)%nat eqn:E6.
  - apply Nat.leb_le in E6.
    destruct (2 <=? length data)%nat eqn:E2; [|apply Nat.leb_gt in E2; lia].
    destruct (4 <=? length data)%nat eqn:E4; [|apply Nat.leb_gt in E4; lia].
    cbn [andb]. destruct (128 <=? byte_at data 0); cbn [negb andb]; [|reflexivity].
    destruct (bytes_eqb (slice 2 4 data) MQTTBridgeSink.RECEIVE_RESPONSE);
      reflexivity.
  - cbn [andb].
    destruct ((2 <=? length data)%nat && (128 <=? byte_at data 0)); cbn [negb];
      [|reflexivity].
    destruct (4 <=? length data)%nat; [|reflexivity].
    destruct (bytes_eqb (slice 2 4 data) MQTTBridgeSink.RECEIVE_RESPONSE);
      reflexivity.
Qed.

(** ** Receive-response walk *)

Section MoreWalkFacts.
Import MQTTBridgeSink.

Lemma from_bytes_big_short (l : list byte) :
  (length l <= 2)%nat -> u16 (from_bytes_big l).
Proof.
  unfold u16, from_bytes_big.
  destruct l as [|a [|b [|c l']]]; cbn [length fold_left]; intros H; try lia.
  - pose proof (b2z_range a). lia.
  - pose proof (b2z_range a). pose proof (b2z_range b). lia.
Qed.

Lemma walk_step_packet_ok (payload : list byte) (offset offset' : nat) (p : packet) :
  walk_step payload offset = Continue offset' p -> packet_ok p.
Proof.
  unfold walk_step.
  destruct (payload !! offset) as [ty|]; [|discriminate].
  destruct (length payload <? offset + 1 + 2)%nat; [discriminate|].
  destruct (payload !! (offset + 1 + 2 + 3)%nat) as [dl|]; [|discriminate].
  destruct (length payload <? offset + 1 + 2 + 3 + 1 + Z.to_nat (b2z dl))%nat eqn:E;
    [discriminate|].
  apply Nat.ltb_ge in E. intros [= _ <-]. unfold packet_ok.
  cbn [packet_type packet_node_id packet_data].
  pose proof (b2z_range dl). split; [apply b2z_range|]. split.
  - apply from_bytes_big_short. unfold slice. rewrite length_take. lia.
  - unfold slice. rewrite length_take. lia.
Qed.

Lemma walk_packets_ok (payload : list byte) (offset : nat) :
  Forall packet_ok (packets (walk payload offset)).
Proof.
  remember (length payload - offset)%nat as n eqn:Hn. revert offset Hn.
  induction n as [n IH] using lt_wf_ind. intros offset Hn.
  rewrite walk_body.
  destruct (offset + 6 <=? length payload)%nat eqn:Hguard; [|constructor].
  apply Nat.leb_le in Hguard.
  destruct (walk_step payload offset) as [offset' p| |] eqn:Hstep;
    [|constructor|constructor].
  cbn zeta. cbn [packets]. constructor.
  - apply (walk_step_packet_ok _ _ _ _ Hstep).
  - apply walk_step_progress in Hstep.
    apply (IH (length payload - offset')%nat); [lia | reflexivity].
Qed.

(** One pass over the bytes of a packet gives the packet back and stops
    right behind it. *)
Lemma walk_step_wire (pre rest : list byte) (filler : byte * byte * byte) (p : packet) :
  packet_ok p ->
  walk_step (pre ++ wire_packet filler p ++ rest) (length pre)
  = Continue (length (pre ++ wire_packet filler p)) p.
Proof.
  intros (Ht & Hn & Hl). destruct p as [ty node data].
  destruct filler as [[f1 f2] f3].
  cbn [packet_type packet_node_id packet_data] in *.
  unfold wire_packet. cbn [packet_type packet_node_id packet_data].
  assert (Hbt : b2z (z2b ty) = ty) by (apply b2z_z2b; lia).
  assert (Hbn : 256 * b2z (z2b (node / 256)) + b2z (z2b (node mod 256)) = node).
  { rewrite !b2z_z2b.
    - pose proof (Z.div_mod node 256). lia.
    - apply Z.mod_pos_bound. lia.
    - split; [apply Z.div_pos; lia | apply Z.div_lt_upper_bound; lia]. }
  assert (Hbl : Z.to_nat (b2z (z2b (Z.of_nat (length data)))) = length data).
  { rewrite b2z_z2b by lia. apply Nat2Z.id. }
  generalize dependent (z2b ty). generalize dependent (z2b (node / 256)).
  generalize dependent (z2b (node mod 256)).
  generalize dependent (z2b (Z.of_nat (length data))).
  intros bl Hbl blo bhi Hbn bt Hbt.
  change (pre ++ (bt :: bhi :: blo :: f1 :: f2 :: f3 :: bl :: data) ++ rest)
    with (pre ++ bt :: bhi :: blo :: f1 :: f2 :: f3 :: bl :: (data ++ rest)).
  unfold walk_step.
  rewrite (lookup_app_r pre) by lia.
  replace (length pre - length pre)%nat with 0%nat by lia.
  change ((bt :: bhi :: blo :: f1 :: f2 :: f3 :: bl :: data ++ rest) !! 0%nat)
    with (Some bt).
  rewrite (lookup_app_r pre) by lia.
  replace (length pre + 1 + 2 + 3 - length pre)%nat with 6%nat by lia.
  change ((bt :: bhi :: blo :: f1 :: f2 :: f3 :: bl :: data ++ rest) !! 6%nat)
    with (Some bl).
  cbv iota beta zeta. rewrite Hbl, Hbt.
  rewrite !length_app. cbn [length]. rewrite !length_app.
  destruct (length pre + S (S (S (S (S (S (S (length data + length rest)))))))
            <? length pre + 1 + 2)%nat eqn:E1; [apply Nat.ltb_lt in E1; lia|].
  destruct (length pre + S (S (S (S (S (S (S (length data + length rest)))))))
            <? length pre + 1 + 2 + 3 + 1 + length data)%nat eqn:E2;
    [apply Nat.ltb_lt in E2; lia|].
  f_equal; [lia|]. f_equal.
  - unfold slice. rewrite drop_app_add.
    replace (length pre + 1 + 2 - (length pre + 1))%nat with 2%nat by lia.
    cbn [skipn firstn]. rewrite ?take_0. unfold from_bytes_big. cbn [fold_left].
    lia.
  - unfold slice.
    replace (length pre + 1 + 2 + 3 + 1)%nat with (length pre + 7)%nat by lia.
    rewrite drop_app_add. cbn [skipn].
    replace (length pre + 7 + length data - (length pre + 7))%nat
      with (length data) by lia.
    apply take_app_length.
Qed.

Lemma walk_wire_packets (ps : list ((byte * byte * byte) * packet)) (pre : list byte) :
  Forall packet_ok (map snd ps) ->
  walk (pre ++ wire_packets ps) (length pre)
  = {| packets := map snd ps;
       iterations := length ps;
       exit_kind := LoopEnd |}.
Proof.
  revert pre. induction ps as [|[filler p] ps IH]; intros pre Hok.
  - unfold wire_packets. cbn [map concat]. rewrite app_nil_r, walk_body.
    destruct (length pre + 6 <=? length pre)%nat eqn:E;
      [apply Nat.leb_le in E; lia | reflexivity].
  - apply Forall_cons in Hok as [Hp Hps]. cbn [snd] in Hp.
    unfold wire_packets in *. cbn [map concat fst snd].
    rewrite walk_body, walk_step_wire by exact Hp.
    assert (Hlen : (7 <= length (wire_packet filler p))%nat).
    { destruct filler as [[f1 f2] f3]. unfold wire_packet. cbn [length]. lia. }
    destruct (length pre + 6 <=? _)%nat eqn:E.
    2: { apply Nat.leb_gt in E. rewrite !length_app in E. lia. }
    cbn zeta. rewrite (app_assoc pre), (IH (pre ++ wire_packet filler p) Hps).
    reflexivity.
Qed.

Lemma walk_six_left (payload : list byte) (offset : nat) :
  (offset + 6)%nat = length payload ->
  walk payload offset
  = {| packets := []; iterations := 1; exit_kind := IndexError |}.
Proof.
  intros H. rewrite walk_body.
  destruct (offset + 6 <=? length payload)%nat eqn:E;
    [|apply Nat.leb_gt in E; lia].
  unfold walk_step.
  destruct (payload !! offset) as [ty|] eqn:E0.
  2: { apply lookup_ge_None in E0. lia. }
  destruct (length payload <? offset + 1 + 2)%nat eqn:E1;
    [apply Nat.ltb_lt in E1; lia|].
  rewrite (proj2 (lookup_ge_None payload (offset + 1 + 2 + 3)%nat)) by lia.
  reflexivity.
Qed.

End MoreWalkFacts.

(** X12. Every packet the walk hands to the handlers has a type below 256,
    a node id below 65536 and at most 255 bytes of data, whatever the
    payload. *)
Theorem walked_packets_fit_their_header (frame_payload : option (list byte)) :
  Forall packet_ok
    (MQTTBridgeSink.packets (MQTTBridgeSink._handle_receive_response frame_payload)).
Proof.
  unfold MQTTBridgeSink._handle_receive_response.
  destruct frame_payload as [payload|]; [|constructor].
  destruct (length payload <? 3)%nat; [constructor|].
  destruct (MQTTBridgeSink.status_skip (slice 0 2 payload)); [|constructor].
  apply walk_packets_ok.
Qed.

(** X13. The walk reads back what the header layout says: over any
    sequence of packets that fit their headers, written one after the
    other behind any prefix, the loop started behind the prefix hands on
    exactly these packets, in order, one per pass, and leaves by its
    condition. *)
Theorem walk_reads_back_packets
    (ps : list ((byte * byte * byte) * MQTTBridgeSink.packet)) (pre : list byte) :
  Forall packet_ok (map snd ps) ->
  MQTTBridgeSink.walk (pre ++ wire_packets ps) (length pre)
  = {| MQTTBridgeSink.packets := map snd ps;
       MQTTBridgeSink.iterations := length ps;
       MQTTBridgeSink.exit_kind := MQTTBridgeSink.LoopEnd |}.
Proof.
  apply walk_wire_packets.
Qed.

Lemma walk_reads_back_packets_witness :
  MQTTBridgeSink.walk
    ([x00; xff; x00; x00; x00]
       ++ wire_packets [((x00, x00, x00), s3_packet); ((x01, x02, x03), s3_packet)])
    (length [x00; xff; x00; x00; x00])
  = {| MQTTBridgeSink.packets :=
         map snd [((x00, x00, x00), s3_packet); ((x01, x02, x03), s3_packet)];
       MQTTBridgeSink.iterations :=
         length [((x00, x00, x00), s3_packet); ((x01, x02, x03), s3_packet)];
       MQTTBridgeSink.exit_kind := MQTTBridgeSink.LoopEnd |}.
Proof.
  apply (walk_reads_back_packets
           [((x00, x00, x00), s3_packet); ((x01, x02, x03), s3_packet)]
           [x00; xff; x00; x00; x00]).
  repeat constructor; simpl; lia.
Defined.

(** X14. When exactly six bytes are left at the top of the loop, the body
    is entered and the read of the data length, one byte behind the end of
    the payload, raises an [IndexError]: the walk ends there without
    handing on a packet. *)
Theorem six_bytes_left_raise_index_error (payload : list byte) (offset : nat) :
  (offset + 6)%nat = length payload ->
  MQTTBridgeSink.walk payload offset
  = {| MQTTBridgeSink.packets := [];
       MQTTBridgeSink.iterations := 1;
       MQTTBridgeSink.exit_kind := MQTTBridgeSink.IndexError |}.
Proof.
  apply walk_six_left.
Qed.

Lemma six_bytes_left_raise_index_error_witness :
  MQTTBridgeSink.walk [x00; xff; x00; x00; x00; x31; x00; x2a; x00; x00; x00] 5
  = {| MQTTBridgeSink.packets := [];
       MQTTBridgeSink.iterations := 1;
       MQTTBridgeSink.exit_kind := MQTTBridgeSink.IndexError |}.
Proof.
  apply (six_bytes_left_raise_index_error
           [x00; xff; x00; x00; x00; x31; x00; x2a; x00; x00; x00] 5).
  reflexivity.
Defined.

(** X15. A payload of fewer than eleven bytes never reaches the loop body:
    nothing is handed on and nothing is raised, whatever its status
    type. *)
Theorem short_payload_is_not_walked (payload : list byte) :
  (length payload < 11)%nat ->
  MQTTBridgeSink._handle_receive_response (Some payload) = MQTTBridgeSink.no_walk.
Proof.
  intros H. unfold MQTTBridgeSink._handle_receive_response.
  destruct (length payload <? 3)%nat; [reflexivity|].
  destruct (MQTTBridgeSink.status_skip (slice 0 2 payload)) as [skip|];
    [|reflexivity].
  rewrite walk_body.
  destruct (2 + skip + 3 + 6 <=? length payload)%nat eqn:E;
    [apply Nat.leb_le in E; lia | reflexivity].
Qed.

Lemma short_payload_is_not_walked_witness :
  MQTTBridgeSink._handle_receive_response (Some [x00; xff; x00; x00; x00])
  = MQTTBridgeSink.no_walk.
Proof.
  apply (short_payload_is_not_walked [x00; xff; x00; x00; x00]). simpl. lia.
Defined.

(** ** Power reports *)

Section MorePowerReportFacts.
Import MQTTBridgeSink.

(** A test that holds for the integers below [n] holds for each of them. *)
Lemma below_by_enumeration (P : Z -> bool) (n : nat) :
  forallb P (map Z.of_nat (seq 0 n)) = true ->
  forall z, 0 <= z < Z.of_nat n -> P z = true.
Proof.
  intros H z Hz. rewrite forallb_forall in H. apply H.
  apply in_map_iff. exists (Z.to_nat z). split; [lia|].
  apply in_seq. lia.
Qed.

Lemma bytes_by_enumeration (P : Z -> Z -> bool) :
  forallb (fun a => forallb (P a) (map Z.of_nat (seq 0 256)))
          (map Z.of_nat (seq 0 256)) = true ->
  forall a b : byte, P (b2z a) (b2z b) = true.
Proof.
  intros H a b.
  pose proof (below_by_enumeration _ 256 H (b2z a) (b2z_range a)) as Ha.
  cbv beta in Ha.
  apply (below_by_enumeration _ 256 Ha (b2z b) (b2z_range b)).
Qed.

(** The 12-bit field that takes a whole byte and the high half of the
    next. *)
Lemma high_field (a b : byte) :
  Z.lor (Z.shiftl (b2z a) 4) (Z.shiftr (Z.land (b2z b) 0xF0) 4)
  = 16 * b2z a + b2z b / 16.
Proof.
  apply Z.eqb_eq.
  apply (bytes_by_enumeration
           (fun x y => Z.lor (Z.shiftl x 4) (Z.shiftr (Z.land y 0xF0) 4)
                       =? 16 * x + y / 16)).
  vm_compute. reflexivity.
Qed.

(** The 12-bit field that takes the low half of a byte and the whole
    next. *)
Lemma low_field (b c : byte) :
  Z.lor (Z.shiftl (Z.land (b2z b) 0x0F) 8) (b2z c)
  = 256 * (b2z b mod 16) + b2z c.
Proof.
  apply Z.eqb_eq.
  apply (bytes_by_enumeration
           (fun x y => Z.lor (Z.shiftl (Z.land x 0x0F) 8) y
                       =? 256 * (x mod 16) + y)).
  vm_compute. reflexivity.
Qed.

Lemma high_field_range (a b : byte) : 0 <= 16 * b2z a + b2z b / 16 < 4096.
Proof.
  pose proof (b2z_range a). pose proof (b2z_range b).
  assert (0 <= b2z b / 16 < 16)
    by (split; [apply Z.div_pos; lia | apply Z.div_lt_upper_bound; lia]).
  lia.
Qed.

Lemma low_field_range (b c : byte) : 0 <= 256 * (b2z b mod 16) + b2z c < 4096.
Proof.
  pose proof (b2z_range c). pose proof (Z.mod_pos_bound (b2z b) 16). lia.
Qed.

Lemma scaled_finite (raw : Z) :
  0 <= raw < 4096 ->
  is_finite (int_to_float raw * 0.05) = true
  /\ is_finite (int_to_float raw * 0.10) = true
  /\ is_finite (int_to_float raw * 0.005) = true
  /\ is_finite (int_to_float raw * 0.1) = true.
Proof.
  intros H.
  pose proof (below_by_enumeration
                (fun z => is_finite (int_to_float z * 0.05)
                          && is_finite (int_to_float z * 0.10)
                          && is_finite (int_to_float z * 0.005)
                          && is_finite (int_to_float z * 0.1))
                4096 ltac:(vm_compute; reflexivity) raw H) as E.
  cbv beta in E. rewrite !andb_true_iff in E. tauto.
Qed.

Lemma duty_finite (d : byte) :
  is_finite (int_to_float (b2z d) / 255.0 * 100.0) = true.
Proof.
  apply (below_by_enumeration
           (fun z => is_finite (int_to_float z / 255.0 * 100.0))
           256 ltac:(vm_compute; reflexivity) (b2z d) (b2z_range d)).
Qed.

Lemma power_report_of_finite (node : Z) (data : list byte) (report : PowerReport) :
  power_report_of node data = Some report -> finite_report report = true.
Proof.
  unfold power_report_of.
  destruct (data !! 0%nat) as [d0|]; [|discriminate].
  destruct (data !! 1%nat) as [d1|]; [|discriminate].
  destruct (data !! 2%nat) as [d2|]; [|discriminate].
  destruct (data !! 3%nat) as [d3|]; [|discriminate].
  destruct (data !! 4%nat) as [d4|]; [|discriminate].
  destruct (data !! 5%nat) as [d5|]; [|discriminate].
  destruct (data !! 6%nat) as [d6|]; [|discriminate].
  cbn [mbind option_bind].
  destruct (if (13 <=? length data)%nat then _ else _) as [r|];
    [|discriminate].
  cbn [mbind option_bind]. intros [= <-].
  unfold finite_report. cbn [voltage_in voltage_out current duty_cycle temperature].
  rewrite !high_field, !low_field.
  destruct (scaled_finite _ (high_field_range d0 d1)) as (-> & _).
  destruct (scaled_finite _ (low_field_range d1 d2)) as (_ & -> & _).
  destruct (scaled_finite _ (high_field_range d4 d5)) as (_ & _ & -> & _).
  destruct (scaled_finite _ (low_field_range d5 d6)) as (_ & _ & _ & ->).
  rewrite duty_finite. reflexivity.
Qed.

End MorePowerReportFacts.

(** X16. The two voltages share byte 1 and the current and temperature
    share byte 5 without overlap or loss: each raw value is below 4096,
    the two raw voltages are the high and the low half of the 24-bit
    number in bytes 0 to 2, and the raw current and temperature those of
    the 24-bit number in bytes 4 to 6. *)
Theorem power_report_fields_are_12_bit_halves (node : Z) (data : list byte) :
  (12 <= length data)%nat ->
  exists vin_raw vout_raw cur_raw temp_raw report,
    MQTTBridgeSink.power_report_of node data = Some report
    /\ voltage_in report = (int_to_float vin_raw * 0.05)%float
    /\ voltage_out report = (int_to_float vout_raw * 0.10)%float
    /\ current report = (int_to_float cur_raw * 0.005)%float
    /\ temperature report = (int_to_float temp_raw * 0.1)%float
    /\ 0 <= vin_raw < 4096 /\ 0 <= vout_raw < 4096
    /\ 0 <= cur_raw < 4096 /\ 0 <= temp_raw < 4096
    /\ 4096 * vin_raw + vout_raw
       = 65536 * byte_at data 0 + 256 * byte_at data 1 + byte_at data 2
    /\ 4096 * cur_raw + temp_raw
       = 65536 * byte_at data 4 + 256 * byte_at data 5 + byte_at data 6.
Proof.
  intros H. unfold byte_at.
  set (d0 := nth 0 data x00). set (d1 := nth 1 data x00).
  set (d2 := nth 2 data x00). set (d4 := nth 4 data x00).
  set (d5 := nth 5 data x00). set (d6 := nth 6 data x00).
  exists (16 * b2z d0 + b2z d1 / 16), (256 * (b2z d1 mod 16) + b2z d2),
         (16 * b2z d4 + b2z d5 / 16), (256 * (b2z d5 mod 16) + b2z d6).
  eexists. split; [apply power_report_of_long, H|].
  cbn [voltage_in voltage_out current temperature]. unfold byte_at.
  fold d0 d1 d2 d4 d5 d6.
  rewrite !high_field, !low_field.
  repeat (split; [reflexivity|]).
  pose proof (high_field_range d0 d1). pose proof (low_field_range d1 d2).
  pose proof (high_field_range d4 d5). pose proof (low_field_range d5 d6).
  pose proof (Z.div_mod (b2z d1) 16). pose proof (Z.div_mod (b2z d5) 16).
  repeat split; lia.
Qed.

Lemma power_report_fields_are_12_bit_halves_witness :
  exists vin_raw vout_raw cur_raw temp_raw report,
    MQTTBridgeSink.power_report_of 42 s3_data = Some report
    /\ voltage_in report = (int_to_float vin_raw * 0.05)%float
    /\ voltage_out report = (int_to_float vout_raw * 0.10)%float
    /\ current report = (int_to_float cur_raw * 0.005)%float
    /\ temperature report = (int_to_float temp_raw * 0.1)%float
    /\ 0 <= vin_raw < 4096 /\ 0 <= vout_raw < 4096
    /\ 0 <= cur_raw < 4096 /\ 0 <= temp_raw < 4096
    /\ 4096 * vin_raw + vout_raw
       = 65536 * byte_at s3_data 0 + 256 * byte_at s3_data 1 + byte_at s3_data 2
    /\ 4096 * cur_raw + temp_raw
       = 65536 * byte_at s3_data 4 + 256 * byte_at s3_data 5 + byte_at s3_data 6.
Proof.
  apply (power_report_fields_are_12_bit_halves 42 s3_data). simpl. lia.
Defined.

(** X17. Every report the handler builds holds finite numbers only: input
    and output voltage, current, duty cycle and temperature are never
    infinite and never NaN, whatever the bytes. *)
Theorem handler_reports_are_finite (node : Z) (data : list byte) (report : PowerReport) :
  MQTTBridgeSink.power_report_of node data = Some report ->
  finite_report report = true.
Proof.
  apply power_report_of_finite.
Qed.

Lemma handler_reports_are_finite_witness :
  finite_report
    {| node_id := 42; voltage_in := 100; voltage_out := 0; current := 8;
       duty_cycle := 100; temperature := 0; rssi := Some 123; slot := Some 5 |}
  = true.
Proof.
  apply (handler_reports_are_finite 42 s3_data). vm_compute. reflexivity.
Defined.

(** ** Deduplication gate *)

Section MoreDedupFacts.
Import MQTTBridge.

Lemma finite_report_fields (report : PowerReport) :
  finite_report report = true ->
  is_finite (voltage_in report) = true
  /\ is_finite (current report) = true
  /\ is_finite (temperature report) = true.
Proof.
  unfold finite_report. rewrite !andb_true_iff. tauto.
Qed.

(** A repeat of the recorded sample inside the window is only stored. *)
Lemma repeat_is_only_stored (bridge : t) (now last_time : float) (gw node : Z)
    (report : PowerReport) :
  mqtt_client bridge = true ->
  (dedup_window bridge <=? 0)%float = false ->
  last_reports bridge !! (gw, node) = Some (recorded last_time report) ->
  (now - last_time <? dedup_window bridge)%float = true ->
  finite_report report = true ->
  publish_power_report bridge now gw node report
  = store bridge now (gw, node) report.
Proof.
  intros Hc Hw Hl Hwin Hf.
  destruct (finite_report_fields _ Hf) as (Fv & Fi & Ft).
  rewrite publish_power_report_enabled by assumption.
  rewrite (should_publish_repeat bridge now last_time (gw, node) report);
    auto.
Qed.

Lemma replay_suppressed (times : list float) (bridge : t) (last_time : float)
    (gw node : Z) (report : PowerReport) :
  mqtt_client bridge = true ->
  (dedup_window bridge <=? 0)%float = false ->
  last_reports bridge !! (gw, node) = Some (recorded last_time report) ->
  finite_report report = true ->
  gaps_within (dedup_window bridge) last_time times = true ->
  published (replay bridge gw node report times) = published bridge.
Proof.
  revert bridge last_time.
  induction times as [|t1 times IH]; intros bridge last_time Hc Hw Hl Hf Hg;
    [reflexivity|].
  cbn [gaps_within] in Hg. apply andb_true_iff in Hg as [Hg1 Hg].
  cbn [replay]. rewrite (repeat_is_only_stored bridge t1 last_time) by assumption.
  rewrite (IH (store bridge t1 (gw, node) report) t1); try assumption.
  - reflexivity.
  - cbn [store last_reports]. apply lookup_insert_eq.
Qed.

(** When the gate's test says no. *)
Lemma should_publish_false_iff (bridge : t) (now : float) (key : Z * Z)
    (report : PowerReport) :
  should_publish bridge now key report = false
  <->
  exists last_time last_slot last,
    last_reports bridge !! key = Some (last_time, last_slot, last)
    /\ (now - last_time <? dedup_window bridge)%float = true
    /\ slot report = last_slot
    /\ (abs (voltage_in report - vin last) <? 0.2)%float = true
    /\ (abs (current report - cur last) <? 0.05)%float = true
    /\ (abs (temperature report - temp last) <? 0.5)%float = true.
Proof.
  unfold should_publish.
  destruct (last_reports bridge !! key) as [[[last_time last_slot] last]|].
  - split.
    + intros H. exists last_time, last_slot, last. split; [reflexivity|].
      destruct (now - last_time <? dedup_window bridge)%float;
        [|discriminate].
      destruct (option_Z_eqb (slot report) last_slot) eqn:E2; [|discriminate].
      apply option_Z_eqb_eq in E2. cbn [andb] in H.
      destruct (abs (voltage_in report - vin last) <? 0.2)%float; [|discriminate].
      destruct (abs (current report - cur last) <? 0.05)%float; [|discriminate].
      destruct (abs (temperature report - temp last) <? 0.5)%float; [|discriminate].
      auto.
    + intros (lt' & ls' & l' & [= <- <- <-] & H1 & H2 & H3 & H4 & H5).
      rewrite H1, (proj2 (option_Z_eqb_eq _ _) H2), H3, H4, H5. reflexivity.
  - split; [discriminate|]. intros (? & ? & ? & H & _). discriminate.
Qed.

Lemma app_one_neq {A} (l : list A) (x : A) : l ++ [x] <> l.
Proof.
  intros H. apply (f_equal (@length A)) in H. rewrite length_app in H.
  cbn [length] in H. lia.
Qed.

End MoreDedupFacts.

(** X18. A power-report packet that arrives a second time within the
    window is not published again: with a client and a window above zero,
    handling the same twelve bytes or more for the same node and gateway
    twice, the second time less than a window after the first, publishes
    nothing the second time. *)
Theorem replayed_packet_is_not_republished (bridge : MQTTBridge.t)
    (t1 t2 : float) (node : Z) (data : list byte) (gw : Z) :
  MQTTBridge.mqtt_client bridge = true ->
  (0 <? MQTTBridge.dedup_window bridge)%float = true ->
  (12 <= length data)%nat ->
  (t2 - t1 <? MQTTBridge.dedup_window bridge)%float = true ->
  let b1 := MQTTBridgeSink._handle_power_report bridge t1 node data gw in
  let b2 := MQTTBridgeSink._handle_power_report b1 t2 node data gw in
  MQTTBridge.published b2 = MQTTBridge.published b1.
Proof.
  intros Hc Hw Hlen Hwin. cbv zeta.
  pose proof (positive_not_leb_zero _ Hw) as Hw0.
  unfold MQTTBridgeSink._handle_power_report.
  destruct (length data <? 12)%nat eqn:E; [apply Nat.ltb_lt in E; lia|].
  destruct (MQTTBridgeSink.power_report_of node data) as [report|] eqn:Er;
    [|reflexivity].
  pose proof (power_report_of_finite _ _ _ Er) as Hf.
  destruct (publish_power_report_records bridge t1 gw node report Hc Hw0)
    as (Hl1 & Hc1 & Hw1 & _).
  rewrite (repeat_is_only_stored _ t2 t1); try assumption; try reflexivity.
  - rewrite Hw1. exact Hw0.
  - rewrite Hw1. exact Hwin.
Qed.

Lemma replayed_packet_is_not_republished_witness :
  let b1 := MQTTBridgeSink._handle_power_report (fresh_bridge 5) 1000 42 s3_data 1 in
  let b2 := MQTTBridgeSink._handle_power_report b1 1001 42 s3_data 1 in
  MQTTBridge.published b2 = MQTTBridge.published b1.
Proof.
  apply (replayed_packet_is_not_republished (fresh_bridge 5) 1000 1001 42 s3_data 1).
  - reflexivity.
  - reflexivity.
  - simpl. lia.
  - reflexivity.
Defined.

(** X19. A call of [publish_power_report] never removes or changes what was
    published before, and adds at most one publication. *)
Theorem publications_are_append_only (bridge : MQTTBridge.t) (now : float)
    (gw node : Z) (report : PowerReport) :
  exists added,
    MQTTBridge.published (MQTTBridge.publish_power_report bridge now gw node report)
    = MQTTBridge.published bridge ++ added
    /\ (length added <= 1)%nat.
Proof.
  unfold MQTTBridge.publish_power_report.
  destruct (negb (MQTTBridge.mqtt_client bridge)).
  { exists []. rewrite app_nil_r. split; [reflexivity | simpl; lia]. }
  destruct (MQTTBridge.dedup_window bridge <=? 0)%float.
  { exists []. rewrite app_nil_r. split; [reflexivity | simpl; lia]. }
  cbv zeta. destruct (MQTTBridge.should_publish _ _ _ _).
  - eexists [_]. split; [reflexivity | simpl; lia].
  - exists []. rewrite app_nil_r. split; [reflexivity | simpl; lia].
Qed.

(** X20. A call of [publish_power_report] for one gateway and node leaves
    the recorded state of every other key, the node table, the window and
    the client as they were. *)
Theorem gate_touches_only_its_key (bridge : MQTTBridge.t) (now : float)
    (gw node : Z) (report : PowerReport) (other : Z * Z) :
  other <> (gw, node) ->
  let bridge' := MQTTBridge.publish_power_report bridge now gw node report in
  MQTTBridge.last_reports bridge' !! other = MQTTBridge.last_reports bridge !! other
  /\ MQTTBridge.node_table bridge' = MQTTBridge.node_table bridge
  /\ MQTTBridge.dedup_window bridge' = MQTTBridge.dedup_window bridge
  /\ MQTTBridge.mqtt_client bridge' = MQTTBridge.mqtt_client bridge.
Proof.
  intros Hne. cbv zeta. unfold MQTTBridge.publish_power_report.
  destruct (negb (MQTTBridge.mqtt_client bridge)); [auto|].
  destruct (MQTTBridge.dedup_window bridge <=? 0)%float; [auto|].
  cbv zeta. destruct (MQTTBridge.should_publish _ _ _ _);
    cbn [MQTTBridge.publish MQTTBridge.store MQTTBridge.last_reports
         MQTTBridge.node_table MQTTBridge.dedup_window MQTTBridge.mqtt_client];
    rewrite lookup_insert_ne by congruence; auto.
Qed.

Lemma gate_touches_only_its_key_witness :
  let bridge' :=
    MQTTBridge.publish_power_report bridge_after_slot_5 1001 1 43 (sample_report 5) in
  MQTTBridge.last_reports bridge' !! (1, 42)
  = MQTTBridge.last_reports bridge_after_slot_5 !! (1, 42)
  /\ MQTTBridge.node_table bridge' = MQTTBridge.node_table bridge_after_slot_5
  /\ MQTTBridge.dedup_window bridge' = MQTTBridge.dedup_window bridge_after_slot_5
  /\ MQTTBridge.mqtt_client bridge' = MQTTBridge.mqtt_client bridge_after_slot_5.
Proof.
  apply (gate_touches_only_its_key bridge_after_slot_5 1001 1 43 (sample_report 5)
           (1, 42)).
  discriminate.
Defined.

(** X21. Suppressed reports move the window along: once a sample is
    recorded, the same report arriving again and again, each time less
    than a window after the time before, is never published, however much
    time has passed since the last publication. *)
Theorem steady_repeats_are_never_published (bridge : MQTTBridge.t)
    (last_time : float) (gw node : Z) (report : PowerReport) (times : list float) :
  MQTTBridge.mqtt_client bridge = true ->
  (0 <? MQTTBridge.dedup_window bridge)%float = true ->
  MQTTBridge.last_reports bridge !! (gw, node) = Some (recorded last_time report) ->
  finite_report report = true ->
  gaps_within (MQTTBridge.dedup_window bridge) last_time times = true ->
  MQTTBridge.published (replay bridge gw node report times)
  = MQTTBridge.published bridge.
Proof.
  intros Hc Hw Hl Hf Hg.
  apply (replay_suppressed times bridge last_time); try assumption.
  apply positive_not_leb_zero, Hw.
Qed.

Lemma steady_repeats_are_never_published_witness :
  MQTTBridge.published
    (replay bridge_after_slot_5 1 42 (sample_report 5) [1004; 1008; 1012; 1016]%float)
  = MQTTBridge.published bridge_after_slot_5.
Proof.
  apply (steady_repeats_are_never_published bridge_after_slot_5 1000 1 42
           (sample_report 5) [1004; 1008; 1012; 1016]%float).
  - reflexivity.
  - reflexivity.
  - vm_compute. reflexivity.
  - reflexivity.
  - reflexivity.
Defined.

(** X22. With a client and a window above zero, a report goes unpublished
    exactly when a sample is recorded for its key, less than a window
    old, with the same slot, and with voltage, current and temperature
    within 0.2, 0.05 and 0.5 of the report's. *)
Theorem suppressed_exactly_when_near_repeat (bridge : MQTTBridge.t) (now : float)
    (gw node : Z) (report : PowerReport) :
  MQTTBridge.mqtt_client bridge = true ->
  (0 <? MQTTBridge.dedup_window bridge)%float = true ->
  (MQTTBridge.published (MQTTBridge.publish_power_report bridge now gw node report)
   = MQTTBridge.published bridge
   <->
   exists last_time last_slot last,
     MQTTBridge.last_reports bridge !! (gw, node) = Some (last_time, last_slot, last)
     /\ (now - last_time <? MQTTBridge.dedup_window bridge)%float = true
     /\ slot report = last_slot
     /\ (abs (voltage_in report - MQTTBridge.vin last) <? 0.2)%float = true
     /\ (abs (current report - MQTTBridge.cur last) <? 0.05)%float = true
     /\ (abs (temperature report - MQTTBridge.temp last) <? 0.5)%float = true).
Proof.
  intros Hc Hw. pose proof (positive_not_leb_zero _ Hw) as Hw0.
  rewrite publish_power_report_enabled by assumption.
  rewrite <- should_publish_false_iff.
  destruct (MQTTBridge.should_publish bridge now (gw, node) report);
    cbn [MQTTBridge.publish MQTTBridge.store MQTTBridge.published]; split;
    try reflexivity; try discriminate.
  intros H. exfalso. exact (app_one_neq _ _ H).
Qed.

Lemma suppressed_exactly_when_near_repeat_witness :
  MQTTBridge.published
    (MQTTBridge.publish_power_report bridge_after_slot_5 1001 1 42 (sample_report 5))
  = MQTTBridge.published bridge_after_slot_5
  <->
  exists last_time last_slot last,
    MQTTBridge.last_reports bridge_after_slot_5 !! (1, 42)
    = Some (last_time, last_slot, last)
    /\ (1001 - last_time <? MQTTBridge.dedup_window bridge_after_slot_5)%float = true
    /\ slot (sample_report 5) = last_slot
    /\ (abs (voltage_in (sample_report 5) - MQTTBridge.vin last) <? 0.2)%float = true
    /\ (abs (current (sample_report 5) - MQTTBridge.cur last) <? 0.05)%float = true
    /\ (abs (temperature (sample_report 5) - MQTTBridge.temp last) <? 0.5)%float = true.
Proof.
  apply (suppressed_exactly_when_near_repeat bridge_after_slot_5 1001 1 42
           (sample_report 5));
    reflexivity.
Defined.

(** ** Node table and dispatch *)

(** X23. A topology report never reaches the node table: the handler
    passes [data[8:16]] as a [bytearray], which [process_topology_report]
    turns away, so the bridge is left as it was whatever the data. Given a
    [bytes] object or an object with a [bytes] attribute, the same function
    records the address for the node and leaves every other node alone. *)
Theorem topology_report_never_reaches_node_table (bridge : MQTTBridge.t)
    (node : Z) (data : list byte) (gw : Z) :
  MQTTBridgeSink._handle_topology_report bridge node data gw = bridge
  /\ MQTTBridge.process_topology_report bridge node (MQTTBridge.AddressByteArray data)
     = bridge
  /\ (forall address,
        address = MQTTBridge.AddressBytes data
        \/ address = MQTTBridge.AddressObject data ->
        let bridge' := MQTTBridge.process_topology_report bridge node address in
        MQTTBridge.node_table bridge' !! node = Some data
        /\ forall other, other <> node ->
             MQTTBridge.node_table bridge' !! other
             = MQTTBridge.node_table bridge !! other).
Proof.
  split; [|split].
  - unfold MQTTBridgeSink._handle_topology_report.
    destruct (length data <? 16)%nat; reflexivity.
  - reflexivity.
  - intros address [-> | ->]; cbv zeta;
      cbn [MQTTBridge.process_topology_report MQTTBridge.node_table];
      (split; [apply lookup_insert_eq |
               intros other Hne; apply lookup_insert_ne; congruence]).
Qed.

Lemma topology_report_never_reaches_node_table_witness :
  let bridge' :=
    MQTTBridge.process_topology_report (fresh_bridge 5) 42
      (MQTTBridge.AddressBytes [xaa; xbb; xcc; xdd; xee; xff; x00; x11]) in
  MQTTBridge.node_table bridge' !! 42
  = Some [xaa; xbb; xcc; xdd; xee; xff; x00; x11]
  /\ forall other, other <> 42 ->
       MQTTBridge.node_table bridge' !! other
       = MQTTBridge.node_table (fresh_bridge 5) !! other.
Proof.
  apply (proj2 (proj2 (topology_report_never_reaches_node_table (fresh_bridge 5) 42
                         [xaa; xbb; xcc; xdd; xee; xff; x00; x11] 1))).
  left. reflexivity.
Defined.

(** X24. Topology first, power next: a power report that follows a
    topology report of its node is handled as if the topology report had
    not arrived; for a node the table does not know (client present,
    window above zero, nothing recorded for the key, twelve bytes or
    more) it is published without address, under the topic of an unknown
    node. *)
Theorem power_report_after_topology_stays_unknown (bridge : MQTTBridge.t)
    (now : float) (node gw : Z) (tdata pdata : list byte) :
  MQTTBridge.mqtt_client bridge = true ->
  (0 <? MQTTBridge.dedup_window bridge)%float = true ->
  MQTTBridge.last_reports bridge !! (gw, node) = None ->
  MQTTBridge.node_table bridge !! node = None ->
  (12 <= length pdata)%nat ->
  let b1 := MQTTBridgeSink._handle_topology_report bridge node tdata gw in
  let b2 := MQTTBridgeSink._handle_power_report b1 now node pdata gw in
  b2 = MQTTBridgeSink._handle_power_report bridge now node pdata gw
  /\ exists report,
       MQTTBridgeSink.power_report_of node pdata = Some report
       /\ MQTTBridge.published b2
          = MQTTBridge.published bridge
              ++ [{| MQTTBridge.pub_address := None;
                     MQTTBridge.pub_report := report;
                     MQTTBridge.pub_gateway_id := gw;
                     MQTTBridge.pub_timestamp := now |}].
Proof.
  intros Hc Hw Hl Hn Hp. cbv zeta.
  pose proof (positive_not_leb_zero _ Hw) as Hw0.
  assert (Ht : MQTTBridgeSink._handle_topology_report bridge node tdata gw = bridge).
  { unfold MQTTBridgeSink._handle_topology_report.
    destruct (length tdata <? 16)%nat; reflexivity. }
  rewrite Ht. split; [reflexivity|].
  unfold MQTTBridgeSink._handle_power_report.
  destruct (length pdata <? 12)%nat eqn:E'; [apply Nat.ltb_lt in E'; lia|].
  rewrite power_report_of_long by exact Hp.
  eexists. split; [reflexivity|].
  rewrite publish_power_report_enabled by assumption.
  unfold MQTTBridge.should_publish. rewrite Hl.
  unfold MQTTBridge.publication_of.
  cbn [MQTTBridge.publish MQTTBridge.store MQTTBridge.published].
  rewrite Hn. reflexivity.
Qed.

Lemma power_report_after_topology_stays_unknown_witness :
  let b1 :=
    MQTTBridgeSink._handle_topology_report (fresh_bridge 5) 42
      [x00; x00; x00; x00; x00; x00; x00; x00;
       xaa; xbb; xcc; xdd; xee; xff; x00; x11] 1 in
  let b2 := MQTTBridgeSink._handle_power_report b1 1000 42 s3_data 1 in
  b2 = MQTTBridgeSink._handle_power_report (fresh_bridge 5) 1000 42 s3_data 1
  /\ exists report,
       MQTTBridgeSink.power_report_of 42 s3_data = Some report
       /\ MQTTBridge.published b2
          = MQTTBridge.published (fresh_bridge 5)
              ++ [{| MQTTBridge.pub_address := None;
                     MQTTBridge.pub_report := report;
                     MQTTBridge.pub_gateway_id := 1;
                     MQTTBridge.pub_timestamp := 1000 |}].
Proof.
  apply (power_report_after_topology_stays_unknown (fresh_bridge 5) 1000 42 1
           [x00; x00; x00; x00; x00; x00; x00; x00;
            xaa; xbb; xcc; xdd; xee; xff; x00; x11] s3_data).
  - reflexivity.
  - reflexivity.
  - reflexivity.
  - reflexivity.
  - simpl. lia.
Defined.

(** X25. What the dispatch of a packet never does: a packet that is not a
    topology report leaves the node table alone, a packet that is not a
    power report publishes nothing and records nothing, a packet of any
    other type leaves the whole bridge as it was, and no packet changes
    the window or the client. *)
Theorem dispatch_keeps_what_it_should (bridge : MQTTBridge.t) (now : float)
    (gw : Z) (p : MQTTBridgeSink.packet) :
  let bridge' := MQTTBridgeSink.dispatch bridge now gw p in
  (MQTTBridgeSink.packet_type p <> 0x09 ->
   MQTTBridge.node_table bridge' = MQTTBridge.node_table bridge)
  /\ (MQTTBridgeSink.packet_type p <> 0x31 ->
      MQTTBridge.published bridge' = MQTTBridge.published bridge
      /\ MQTTBridge.last_reports bridge' = MQTTBridge.last_reports bridge)
  /\ (MQTTBridgeSink.packet_type p <> 0x31 ->
      MQTTBridgeSink.packet_type p <> 0x09 -> bridge' = bridge)
  /\ MQTTBridge.dedup_window bridge' = MQTTBridge.dedup_window bridge
  /\ MQTTBridge.mqtt_client bridge' = MQTTBridge.mqtt_client bridge.
Proof.
  cbv zeta. unfold MQTTBridgeSink.dispatch,
    MQTTBridgeSink.POWER_REPORT, MQTTBridgeSink.TOPOLOGY_REPORT.
  destruct (MQTTBridgeSink.packet_type p =? 49) eqn:E1.
  - apply Z.eqb_eq in E1.
    assert (Hk : forall b t n d g,
               MQTTBridge.node_table (MQTTBridgeSink._handle_power_report b t n d g)
               = MQTTBridge.node_table b
               /\ MQTTBridge.dedup_window (MQTTBridgeSink._handle_power_report b t n d g)
                  = MQTTBridge.dedup_window b
               /\ MQTTBridge.mqtt_client (MQTTBridgeSink._handle_power_report b t n d g)
                  = MQTTBridge.mqtt_client b).
    { intros b t n d g. unfold MQTTBridgeSink._handle_power_report.
      destruct (length d <? 12)%nat; [auto|].
      destruct (MQTTBridgeSink.power_report_of n d); [|auto].
      unfold MQTTBridge.publish_power_report.
      destruct (negb (MQTTBridge.mqtt_client b)); [auto|].
      destruct (MQTTBridge.dedup_window b <=? 0)%float; [auto|].
      cbv zeta. destruct (MQTTBridge.should_publish _ _ _ _); auto. }
    destruct (Hk bridge now (MQTTBridgeSink.packet_node_id p)
                 (MQTTBridgeSink.packet_data p) gw) as (H1 & H2 & H3).
    repeat split; auto; intros; congruence.
  - apply Z.eqb_neq in E1.
    destruct (MQTTBridgeSink.packet_type p =? 9) eqn:E2.
    + apply Z.eqb_eq in E2. unfold MQTTBridgeSink._handle_topology_report.
      destruct (length (MQTTBridgeSink.packet_data p) <? 16)%nat;
        repeat split; auto; intros; congruence.
    + repeat split; auto.
Qed.

Lemma dispatch_keeps_what_it_should_witness :
  MQTTBridgeSink.dispatch (fresh_bridge 5) 1000 1
    {| MQTTBridgeSink.packet_type := 0x27;
       MQTTBridgeSink.packet_node_id := 42;
       MQTTBridgeSink.packet_data := s3_data |}
  = fresh_bridge 5.
Proof.
  apply (dispatch_keeps_what_it_should (fresh_bridge 5) 1000 1
           {| MQTTBridgeSink.packet_type := 0x27;
              MQTTBridgeSink.packet_node_id := 42;
              MQTTBridgeSink.packet_data := s3_data |});
    discriminate.
Defined.

(** ** stringhex *)

Section StringhexFacts.

Lemma parse_format_02x (x : Z) : 0 <= x < 256 -> parse_02x (format_02x x) = x.
Proof.
  intros H. apply Z.eqb_eq.
  apply (below_by_enumeration (fun z => parse_02x (format_02x z) =? z) 256);
    [vm_compute; reflexivity | exact H].
Qed.

Lemma format_02x_inj (a b : byte) :
  format_02x (b2z a) = format_02x (b2z b) -> a = b.
Proof.
  intros H. apply b2z_inj.
  rewrite <- (parse_format_02x (b2z a)), <- (parse_format_02x (b2z b)), H
    by apply b2z_range.
  reflexivity.
Qed.

Lemma join_cons2 (d p q : list ascii) (rest : list (list ascii)) :
  join d (p :: q :: rest) = p ++ d ++ join d (q :: rest).
Proof. reflexivity. Qed.

Lemma stringhex_length (data : list byte) (d : list ascii) :
  length (stringhex data d)
  = (2 * length data + length d * (length data - 1))%nat.
Proof.
  unfold stringhex. induction data as [|a [|b rest] IH].
  - cbn. lia.
  - cbn. lia.
  - cbn [map] in *. rewrite join_cons2, !length_app, IH.
    unfold format_02x. cbn [length].
    rewrite !Nat.sub_succ, !Nat.sub_0_r. lia.
Qed.

Lemma stringhex_inj_same_length (d : list ascii) (a b : list byte) :
  length a = length b -> stringhex a d = stringhex b d -> a = b.
Proof.
  unfold stringhex. revert b.
  induction a as [|x [|x' xs] IH]; intros [|y [|y' ys]]; cbn [length];
    try lia; intros Hlen H.
  - reflexivity.
  - cbn [map join] in H. f_equal. apply format_02x_inj, H.
  - cbn [map] in H. rewrite !join_cons2 in H.
    apply app_inj_1 in H as [H1 H2]; [|reflexivity].
    apply app_inv_head in H2.
    f_equal; [apply format_02x_inj, H1|].
    apply IH; [cbn [length]; lia | exact H2].
Qed.

Lemma stringhex_inj (d : list ascii) (a b : list byte) :
  stringhex a d = stringhex b d -> a = b.
Proof.
  intros H. apply (stringhex_inj_same_length d); [|exact H].
  apply (f_equal (@length ascii)) in H. rewrite !stringhex_length in H.
  destruct a as [|x xs], b as [|y ys]; cbn [length] in *; try lia.
  replace (S (length xs) - 1)%nat with (length xs) in H by lia.
  replace (S (length ys) - 1)%nat with (length ys) in H by lia.
  nia.
Qed.

Lemma stringhex_cons2 (a b : byte) (rest : list byte) (d : list ascii) :
  stringhex (a :: b :: rest) d
  = format_02x (b2z a) ++ d ++ stringhex (b :: rest) d.
Proof. reflexivity. Qed.

(** Where the characters of byte [i] and the delimiter behind it are. *)
Lemma stringhex_group (d : list ascii) (data : list byte) (i : nat) (b : byte) :
  data !! i = Some b ->
  take 2 (drop (i * (2 + length d)) (stringhex data d)) = format_02x (b2z b)
  /\ ((S i < length data)%nat ->
      take (length d) (drop (i * (2 + length d) + 2) (stringhex data d)) = d).
Proof.
  revert i. induction data as [|a rest IH]; intros i H; [discriminate|].
  destruct i as [|i].
  - injection H as ->. destruct rest as [|a' rest'].
    + split; [reflexivity|]. cbn [length]. lia.
    + rewrite stringhex_cons2. cbn [Nat.mul Nat.add]. split.
      * cbn [drop]. apply take_app_length'. reflexivity.
      * intros _. rewrite drop_app_length' by reflexivity.
        apply take_app_length.
  - cbn [lookup list_lookup] in H. change (rest !! i = Some b) in H.
    destruct rest as [|a' rest']; [discriminate|].
    destruct (IH i H) as [IH1 IH2].
    rewrite stringhex_cons2, app_assoc.
    assert (Hk : length (format_02x (b2z a) ++ d) = (2 + length d)%nat).
    { rewrite length_app. reflexivity. }
    replace (S i * (2 + length d))%nat
      with (length (format_02x (b2z a) ++ d) + i * (2 + length d))%nat
      by (rewrite Hk; lia).
    replace (length (format_02x (b2z a) ++ d) + i * (2 + length d) + 2)%nat
      with (length (format_02x (b2z a) ++ d) + (i * (2 + length d) + 2))%nat
      by lia.
    rewrite !drop_app_add. split; [exact IH1|].
    intros Hlt. apply IH2. cbn [length] in *. lia.
Qed.

End StringhexFacts.

(** X26. [stringhex] writes two characters per byte and the delimiter
    between bytes, nothing at the ends: the length is twice the number of
    bytes plus one delimiter for each byte but the first; the two
    characters of byte [i] stand at position [i] times two plus the
    delimiter length, are its [02x] form and read back as its value; and
    behind every byte but the last stands the delimiter. *)
Theorem stringhex_layout (data : list byte) (delimiter : list ascii) :
  length (stringhex data delimiter)
  = (2 * length data + length delimiter * (length data - 1))%nat
  /\ forall (i : nat) (b : byte),
       data !! i = Some b ->
       take 2 (drop (i * (2 + length delimiter)) (stringhex data delimiter))
       = format_02x (b2z b)
       /\ parse_02x
            (take 2 (drop (i * (2 + length delimiter)) (stringhex data delimiter)))
          = b2z b
       /\ ((S i < length data)%nat ->
           take (length delimiter)
             (drop (i * (2 + length delimiter) + 2) (stringhex data delimiter))
           = delimiter).
Proof.
  split; [apply stringhex_length|].
  intros i b H. destruct (stringhex_group delimiter data i b H) as [H1 H2].
  split; [exact H1|]. split; [|exact H2].
  rewrite H1. apply parse_format_02x, b2z_range.
Qed.

Lemma stringhex_layout_witness :
  take 2 (drop (1 * (2 + length [":"%char]))
            (stringhex [xaa; xbb; x00] [":"%char]))
  = format_02x (b2z xbb)
  /\ parse_02x
       (take 2 (drop (1 * (2 + length [":"%char]))
                  (stringhex [xaa; xbb; x00] [":"%char])))
     = b2z xbb
  /\ ((2 < length [xaa; xbb; x00])%nat ->
      take (length [":"%char])
        (drop (1 * (2 + length [":"%char]) + 2)
           (stringhex [xaa; xbb; x00] [":"%char]))
      = [":"%char]).
Proof.
  apply (proj2 (stringhex_layout [xaa; xbb; x00] [":"%char]) 1%nat xbb).
  reflexivity.
Defined.

(** X27. [stringhex] tells byte strings apart: with any delimiter, two byte
    strings that are written the same are the same, so two node addresses
    never share a topic. *)
Theorem stringhex_is_injective (delimiter : list ascii) (a b : list byte) :
  stringhex a delimiter = stringhex b delimiter -> a = b.
Proof.
  apply stringhex_inj.
Qed.

Lemma stringhex_is_injective_witness :
  [xaa; xbb; x00; x11] = [xaa; xbb; x00; x11].
Proof.
  apply (stringhex_is_injective [":"%char] [xaa; xbb; x00; x11] [xaa; xbb; x00; x11]).
  reflexivity.
Defined.

Example stringhex_address :
  stringhex [xaa; xbb; xcc; xdd; xee; xff; x00; x11] [":"%char]
  = ["a"; "a"; ":"; "b"; "b"; ":"; "c"; "c"; ":"; "d"; "d"; ":";
     "e"; "e"; ":"; "f"; "f"; ":"; "0"; "0"; ":"; "1"; "1"]%char.
Proof. vm_compute. reflexivity. Qed.

(** ** setup_mqtt *)

Section SetupFacts.
Import SetupMQTT.

(** The loop, one pass unfolded. *)
Lemma loop_body (running connects : nat -> bool) (retry_count : nat) :
  loop running connects retry_count =
  if (retry_count <? max_retries)%nat && running retry_count then
    if connects retry_count then (true, 1%nat)
    else if (max_retries <=? retry_count + 1)%nat then (false, 1%nat)
    else let r := loop running connects (retry_count + 1) in
         (fst r, S (snd r))
  else (false, 0%nat).
Proof.
  funelim (loop running connects retry_count);
    try match goal with E : (_ && _) = _ |- _ => rewrite E end;
    try match goal with E : connects _ = _ |- _ => rewrite E end;
    try match goal with E : (_ <=? _)%nat = _ |- _ => rewrite E end;
    reflexivity.
Qed.

Lemma loop_attempts (running connects : nat -> bool) (retry_count : nat) :
  (snd (loop running connects retry_count) <= max_retries - retry_count)%nat.
Proof.
  remember (max_retries - retry_count)%nat as n eqn:Hn. revert retry_count Hn.
  induction n as [n IH] using lt_wf_ind. intros k Hn.
  rewrite loop_body.
  destruct ((k <? max_retries)%nat && running k) eqn:E; [|cbn; lia].
  apply andb_true_iff in E as [E _]. apply Nat.ltb_lt in E.
  destruct (connects k); [cbn; lia|].
  destruct (max_retries <=? k + 1)%nat eqn:E2; [cbn; lia|].
  apply Nat.leb_gt in E2. cbv zeta. cbn [snd].
  specialize (IH (max_retries - (k + 1))%nat ltac:(lia) (k + 1)%nat eq_refl).
  lia.
Qed.

Lemma loop_succeeds (running connects : nat -> bool) (retry_count : nat) :
  fst (loop running connects retry_count) = true
  <->
  exists i,
    (retry_count <= i < max_retries)%nat
    /\ connects i = true
    /\ (forall j, (retry_count <= j <= i)%nat -> running j = true)
    /\ (forall j, (retry_count <= j < i)%nat -> connects j = false).
Proof.
  remember (max_retries - retry_count)%nat as n eqn:Hn. revert retry_count Hn.
  induction n as [n IH] using lt_wf_ind. intros k Hn.
  rewrite loop_body.
  destruct ((k <? max_retries)%nat && running k) eqn:E.
  - apply andb_true_iff in E as [E Hr]. apply Nat.ltb_lt in E.
    destruct (connects k) eqn:Ec.
    + cbn [fst]. split; [intros _|reflexivity].
      exists k. split; [lia|]. split; [exact Ec|].
      split; intros j Hj; [replace j with k by lia; exact Hr | lia].
    + destruct (max_retries <=? k + 1)%nat eqn:E2.
      * apply Nat.leb_le in E2. cbn [fst]. split; [discriminate|].
        intros (i & Hi & Hci & _ & _).
        replace i with k in Hci by lia. congruence.
      * apply Nat.leb_gt in E2. cbv zeta. cbn [fst].
        rewrite (IH (max_retries - (k + 1))%nat ltac:(lia) (k + 1)%nat eq_refl).
        split.
        -- intros (i & Hi & Hci & Hrun & Hfail). exists i.
           split; [lia|]. split; [exact Hci|].
           split; intros j Hj;
             (destruct (Nat.eq_dec j k) as [->|];
              [assumption | (apply Hrun || apply Hfail); lia]).
        -- intros (i & Hi & Hci & Hrun & Hfail).
           assert (i <> k) by (intros ->; congruence).
           exists i. split; [lia|]. split; [exact Hci|].
           split; intros j Hj; [apply Hrun | apply Hfail]; lia.
  - cbn [fst]. split; [discriminate|].
    intros (i & Hi & _ & Hrun & _).
    apply andb_false_iff in E as [E|E].
    + apply Nat.ltb_ge in E. lia.
    + rewrite (Hrun k ltac:(lia)) in E. discriminate.
Qed.

End SetupFacts.

(** X28. [setup_mqtt] enters its connection attempt at most five times,
    and returns [True] exactly when one of the first five attempts
    succeeds, every earlier one having failed and the bridge still running
    at each of them. *)
Theorem setup_mqtt_tries_five_times (running connects : nat -> bool) :
  (snd (SetupMQTT.setup_mqtt running connects) <= 5)%nat
  /\ (fst (SetupMQTT.setup_mqtt running connects) = true
      <->
      exists i,
        (i < 5)%nat
        /\ connects i = true
        /\ (forall j, (j <= i)%nat -> running j = true)
        /\ (forall j, (j < i)%nat -> connects j = false)).
Proof.
  unfold SetupMQTT.setup_mqtt. split.
  - pose proof (loop_attempts running connects 0) as H.
    unfold SetupMQTT.max_retries in H. lia.
  - rewrite loop_succeeds. unfold SetupMQTT.max_retries. split.
    + intros (i & Hi & Hc & Hr & Hf). exists i.
      split; [lia|]. split; [exact Hc|].
      split; intros j Hj; [apply Hr | apply Hf]; lia.
    + intros (i & Hi & Hc & Hr & Hf). exists i.
      split; [lia|]. split; [exact Hc|].
      split; intros j Hj; [apply Hr | apply Hf]; lia.
Qed.

Example setup_mqtt_third_attempt :
  SetupMQTT.setup_mqtt (fun _ => true) (fun n => (2 <=? n)%nat) = (true, 3%nat)
  /\ SetupMQTT.setup_mqtt (fun _ => true) (fun _ => false) = (false, 5%nat).
Proof. vm_compute. split; reflexivity. Qed.
